(** * doxy2mdx: the XML parser and the MDX renderer

    A shallow embedding of [XmlParser.cpp] and [Converter.cpp].

    - [std::string] and [std::string_view] are [string]; a [char] is an
      [ascii].
    - [XmlNode] is the struct of [XmlParser.hpp]: a name, a text, the
      attributes and the children, each node owning its children.  A text
      node is a node named [#text].
    - [int] is a [Z] with the two's-complement wrap-around of a 32-bit
      addition written out.
    - The parser's cursor ([data_], [pos_]) is the part of the input that
      is still to be read, [data_.substr(pos_)]: every operation of the
      parser looks forward from [pos_] only.
    - A [std::runtime_error] thrown by the parser is a value of
      [MalformedDocument]; a parse returns a [result]. *)

From Stdlib Require Import String Ascii List ZArith Lia Bool Arith.
Import ListNotations.

Local Open Scope list_scope.
Local Open Scope string_scope.

(** ** Strings *)

(** The double quote character, and the apostrophe. *)
Definition dquote : ascii := "034"%char.
Definition squote : ascii := "039"%char.
Definition DQ : string := String dquote "".

(** Line feed. *)
Definition LF : string := String "010"%char "".

(** [std::string(n, c)] *)
Fixpoint fill (n : nat) (c : ascii) : string :=
  match n with
  | O => ""
  | S n' => String c (fill n' c)
  end.

(** What an [ostringstream] holds after the strings of [l] were written to
    it in order. *)
Fixpoint concat_all (l : list string) : string :=
  match l with
  | [] => ""
  | s :: l' => s ++ concat_all l'
  end.

(** [s.empty()] *)
Definition empty (s : string) : bool :=
  match s with
  | EmptyString => true
  | String _ _ => false
  end.

(** ** The node tree (XmlParser.hpp) *)

Record XmlAttribute : Type := mkXmlAttribute {
  attr_name : string;
  attr_value : string
}.

#[local] Set Warnings "-register-all".

Inductive XmlNode : Type := mkXmlNode {
  name : string;
  text : string;
  attributes : list XmlAttribute;
  children : list XmlNode
}.

(** [XmlNode{"#text", t, {}, {}}] *)
Definition textNode (t : string) : XmlNode := mkXmlNode "#text" t [] [].

(** [XmlNode::attr]: the first attribute named [key]. *)
Definition attr (key : string) (node : XmlNode) : option XmlAttribute :=
  find (fun a => attr_name a =? key) (attributes node).

(** [XmlNode::child]: the first child named [key]. *)
Definition child (key : string) (node : XmlNode) : option XmlNode :=
  find (fun c => name c =? key) (children node).

(** [XmlNode::childrenNamed]: the children named [key], in document order. *)
Definition childrenNamed (key : string) (node : XmlNode) : list XmlNode :=
  filter (fun c => name c =? key) (children node).

(** ** Configuration (Config.hpp) *)

Record Config : Type := mkConfig {
  inputXmlDir : string;
  outputMdxDir : string;
  cssOutputPath : string;
  projectName : string;
  headingOffset : Z;
  emitIndex : bool
}.

(** ** Heading markers (Converter.cpp, [heading]) *)

Module Int.
Local Open Scope Z_scope.

Definition min_int : Z := - 2 ^ 31.
Definition max_int : Z := 2 ^ 31 - 1.

(** The value of a 32-bit two's-complement [int] holding [z]. *)
Definition wrap (z : Z) : Z := (z + 2 ^ 31) mod 2 ^ 32 - 2 ^ 31.

Definition add (a b : Z) : Z := wrap (a + b).

Definition in_range (z : Z) : Prop := min_int <= z <= max_int.
End Int.

Definition heading (level offset : Z) : string :=
  let l := Int.add level offset in
  let l := if (l <? 1)%Z then 1%Z else l in
  let l := if (l >? 6)%Z then 6%Z else l in
  fill (Z.to_nat l) "#".

(** ** The renderer (Converter.cpp) *)

(** [nodeText]: the concatenation of all descendant text. *)
Fixpoint nodeText (node : XmlNode) : string :=
  if name node =? "#text" then text node
  else concat_all (map nodeText (children node)).

(** The loops [for (c : xs) if (c.name == key) ...] that collect one result
    per child named [key]. *)
Definition forNamed {A : Type} (key : string) (f : XmlNode -> A)
  : list XmlNode -> list A :=
  fix go (l : list XmlNode) : list A :=
    match l with
    | [] => []
    | c :: l' => if name c =? key then f c :: go l' else go l'
    end.

(** The rows of a table are written out by an index loop, the row of index
    0 with header cells. *)
Definition renderCell (header : bool) (cell : string) : string :=
  (if header then "<th>" else "<td>") ++ cell ++
  (if header then "</th>" else "</td>").

Definition renderRow (header : bool) (cells : list string) : string :=
  "<tr>" ++ concat_all (map (renderCell header) cells) ++ "</tr>" ++ LF.

Fixpoint renderRows (r : nat) (rows : list (list string)) : string :=
  match rows with
  | [] => ""
  | cells :: rows' => renderRow (r =? 0)%nat cells ++ renderRows (S r) rows'
  end.

(** The member functions that call [renderNodeInline] on the nodes below
    their argument, over the function they call. *)
Section Dispatch.
Variable inline : XmlNode -> string.

Definition renderPara_of (node : XmlNode) : string :=
  concat_all (map inline (children node)).

(** The cells of one row: one string for each [entry] child. *)
Definition rowCells_of (row : XmlNode) : list string :=
  forNamed "entry" (fun entry => concat_all (map inline (children entry)))
           (children row).

(** The vector [rows] of [renderTable]: the cells of each [row] child
    that has at least one cell. *)
Definition tableRows_of : list XmlNode -> list (list string) :=
  fix go (l : list XmlNode) : list (list string) :=
    match l with
    | [] => []
    | row :: l' =>
        if negb (name row =? "row") then go l'
        else
          let cells := rowCells_of row in
          match cells with
          | [] => go l'
          | _ :: _ => cells :: go l'
          end
    end.

Definition renderTable_of (node : XmlNode) : string :=
  let rows := tableRows_of (children node) in
  match rows with
  | [] => ""
  | _ :: _ =>
      "<table class=" ++ DQ ++ "doxygen-table" ++ DQ ++ ">" ++ LF ++
      renderRows 0 rows ++
      "</table>" ++ LF
  end.

Definition renderItem_of (c : XmlNode) : string :=
  if name c =? "para" then renderPara_of c else inline c.

Definition renderList_of (node : XmlNode) (bullet : string) : string :=
  concat_all
    (forNamed "listitem"
       (fun item =>
          bullet ++ " " ++ concat_all (map renderItem_of (children item)) ++ LF)
       (children node)).

Definition renderCode_of (node : XmlNode) : string :=
  "```cpp" ++ LF ++
  concat_all
    (forNamed "codeline"
       (fun cl => concat_all (map inline (children cl)) ++ LF)
       (children node)) ++
  "```" ++ LF.

Definition wrapUnknown_of (node : XmlNode) : string :=
  "<div class=" ++ DQ ++ "doxygen-" ++ name node ++ DQ ++ ">" ++
  concat_all (map inline (children node)) ++
  "</div>".
End Dispatch.

Fixpoint renderNodeInline (node : XmlNode) : string :=
  if name node =? "#text" then text node
  else if name node =? "bold" then "**" ++ nodeText node ++ "**"
  else if name node =? "emphasis" then "*" ++ nodeText node ++ "*"
  else if name node =? "computeroutput" then "`" ++ nodeText node ++ "`"
  else if name node =? "ref" then
    let label := nodeText node in
    let anchor := match attr "refid" node with
                  | Some id => attr_value id
                  | None => label
                  end in
    "[" ++ label ++ "](#" ++ anchor ++ ")"
  else if name node =? "itemizedlist" then
    LF ++ renderList_of renderNodeInline node "-" ++ LF
  else if name node =? "orderedlist" then
    LF ++ renderList_of renderNodeInline node "1." ++ LF
  else if name node =? "table" then
    LF ++ renderTable_of renderNodeInline node ++ LF
  else if name node =? "programlisting" then
    LF ++ renderCode_of renderNodeInline node ++ LF
  else if name node =? "para" then renderPara_of renderNodeInline node
  else wrapUnknown_of renderNodeInline node.

Definition renderPara : XmlNode -> string := renderPara_of renderNodeInline.
Definition renderTable : XmlNode -> string := renderTable_of renderNodeInline.
Definition renderList : XmlNode -> string -> string :=
  renderList_of renderNodeInline.
Definition renderCode : XmlNode -> string := renderCode_of renderNodeInline.
Definition wrapUnknown : XmlNode -> string := wrapUnknown_of renderNodeInline.
Definition rowCells : XmlNode -> list string := rowCells_of renderNodeInline.
Definition tableRows : list XmlNode -> list (list string) :=
  tableRows_of renderNodeInline.

(** [renderDescription]: the children of a brief or detailed description,
    each followed by a blank line. *)
Definition renderDescriptionChild (c : XmlNode) : string :=
  if name c =? "para" then renderPara c ++ LF ++ LF
  else if name c =? "#text" then
    (if negb (empty (text c)) then text c ++ LF ++ LF else "")
  else wrapUnknown c ++ LF ++ LF.

Definition renderDescription (desc : XmlNode) : string :=
  concat_all (map renderDescriptionChild (children desc)).

(** [if (auto* d = node.child(key)) out << renderDescription( *d)] *)
Definition renderDescriptionOf (key : string) (node : XmlNode) : string :=
  match child key node with
  | Some d => renderDescription d
  | None => ""
  end.

(** [node.child(key) ? nodeText( *node.child(key)) : dflt] *)
Definition childText (key dflt : string) (node : XmlNode) : string :=
  match child key node with
  | Some c => nodeText c
  | None => dflt
  end.

(** The locals [name], [def], [args] and [signature] of [renderMember]. *)
Definition memberName (member : XmlNode) : string :=
  childText "name" "member" member.
Definition memberDef (member : XmlNode) : string :=
  childText "definition" "" member.
Definition memberArgs (member : XmlNode) : string :=
  childText "argsstring" "" member.
Definition memberSignature (member : XmlNode) : string :=
  if empty (memberDef member) then memberName member
  else memberDef member ++ memberArgs member.

Section Converter.
(** The converter's [config_]. *)
Variable config_ : Config.

Definition renderMember (member : XmlNode) (level : Z) : string :=
  heading level (headingOffset config_) ++ " " ++
  memberSignature member ++ LF ++ LF ++
  renderDescriptionOf "briefdescription" member ++
  renderDescriptionOf "detaileddescription" member.

Definition renderSection (section : XmlNode) : string :=
  let stitle := match attr "kind" section with
                | Some k => attr_value k
                | None => "Members"
                end in
  LF ++ heading 2 (headingOffset config_) ++ " " ++ stitle ++ LF ++ LF ++
  concat_all
    (forNamed "memberdef" (fun member => renderMember member 3)
              (children section)).

Definition renderCompound (compound : XmlNode) : string :=
  let name := childText "compoundname" "Unknown" compound in
  let kind := match attr "kind" compound with
              | Some k => attr_value k
              | None => "compound"
              end in
  heading 1 (headingOffset config_) ++ " " ++ name ++
  " (" ++ kind ++ ")" ++ LF ++ LF ++
  renderDescriptionOf "briefdescription" compound ++
  renderDescriptionOf "detaileddescription" compound ++
  concat_all (map renderSection (childrenNamed "sectiondef" compound)).

Definition renderDocument (root : XmlNode) : string :=
  if name root =? "doxygen" then
    concat_all
      (map (fun comp => renderCompound comp ++ LF)
           (childrenNamed "compounddef" root))
  else if name root =? "compounddef" then renderCompound root
  else wrapUnknown root.
End Converter.

(** ** The parser (XmlParser.cpp) *)

(** What a parse throws.  The position that the first message carries is
    not kept. *)
Inductive MalformedDocument : Type :=
| ExpectedOpen            (* Expected '<' at position ... *)
| UnexpectedEnd           (* Unexpected end of XML while searching for marker *)
| ExpectedEquals          (* Expected '=' after attribute name *)
| ExpectedQuote           (* Expected quote for attribute value *)
| UnterminatedValue       (* Unterminated attribute value *)
| ExpectedClose           (* Expected '>' *)
| MismatchedClosingTag (endName openName : string)
                          (* Mismatched closing tag: endName for openName *)
| ExpectedCloseAfterEnd.  (* Expected '>' after closing tag *)

(** The outcome of a parsing function: a value, an exception, or no
    answer within the given number of calls. *)
Inductive result (A : Type) : Type :=
| Ok (a : A)
| Err (e : MalformedDocument)
| OutOfFuel.

Arguments Ok {A} a.
Arguments Err {A} e.
Arguments OutOfFuel {A}.

Definition bind {A B : Type} (r : result A) (k : A -> result B) : result B :=
  match r with
  | Ok a => k a
  | Err e => Err e
  | OutOfFuel => OutOfFuel
  end.

Notation "x <- r ;; k" := (bind r (fun x => k))
  (at level 61, r at next level, right associativity).
Notation "' p <- r ;; k" := (bind r (fun p => k))
  (at level 61, p pattern, r at next level, right associativity).

(** [std::isspace] and [std::isalnum] in the C locale. *)
Definition isspace (c : ascii) : bool :=
  let n := nat_of_ascii c in
  ((9 <=? n) && (n <=? 13) || (n =? 32))%nat.

Definition isalnum (c : ascii) : bool :=
  let n := nat_of_ascii c in
  ((48 <=? n) && (n <=? 57) || (65 <=? n) && (n <=? 90) ||
   (97 <=? n) && (n <=? 122))%nat.

Definition isNameChar (c : ascii) : bool :=
  isalnum c || (c =? "_")%char || (c =? "-")%char || (c =? ":")%char.

(** [eof]: nothing is left to read. *)
Definition eof (s : string) : bool := empty s.

(** [get]: the next character, consumed; the zero character at the end of
    input, where nothing is consumed. *)
Definition get (s : string) : ascii * string :=
  match s with
  | EmptyString => (zero, EmptyString)
  | String c s' => (c, s')
  end.

(** [peek] *)
Definition peek (s : string) : ascii := fst (get s).

(** [startsWith]: [data_.substr(pos_, p.size()) == p]. *)
Fixpoint startsWith (p s : string) : bool :=
  match p with
  | EmptyString => true
  | String a p' =>
      match s with
      | EmptyString => false
      | String b s' => (a =? b)%char && startsWith p' s'
      end
  end.

(** [pos_ += n] *)
Fixpoint drop (n : nat) (s : string) : string :=
  match n with
  | O => s
  | S n' =>
      match s with
      | EmptyString => EmptyString
      | String _ s' => drop n' s'
      end
  end.

Fixpoint skipWhitespace (s : string) : string :=
  match s with
  | EmptyString => EmptyString
  | String c s' => if isspace c then skipWhitespace s' else s
  end.

(** [parseName]: the longest run of name characters, and what follows. *)
Fixpoint parseName (s : string) : string * string :=
  match s with
  | EmptyString => (EmptyString, EmptyString)
  | String c s' =>
      if isNameChar c then
        let (n, r) := parseName s' in (String c n, r)
      else (EmptyString, s)
  end.

(** [parseUntil]: the text before the first occurrence of [marker] at or
    after the cursor, the cursor left at the marker. *)
Fixpoint parseUntil (marker : string) (s : string) : result (string * string) :=
  if startsWith marker s then Ok (EmptyString, s)
  else
    match s with
    | EmptyString => Err UnexpectedEnd
    | String c s' =>
        ' (t, r) <- parseUntil marker s' ;; Ok (String c t, r)
    end.

(** [decodeEntities]: the loop over [i], with [skip] the characters that
    [i += 3], [i += 4] or [i += 5] jumps over. *)
Fixpoint decodeFrom (skip : nat) (text : string) : string :=
  match text with
  | EmptyString => EmptyString
  | String c rest =>
      match skip with
      | S k => decodeFrom k rest
      | O =>
          if (c =? "&")%char then
            if startsWith "&lt;" text then String "<" (decodeFrom 3 rest)
            else if startsWith "&gt;" text then String ">" (decodeFrom 3 rest)
            else if startsWith "&amp;" text then String "&" (decodeFrom 4 rest)
            else if startsWith "&quot;" text then
              String dquote (decodeFrom 5 rest)
            else if startsWith "&apos;" text then
              String squote (decodeFrom 5 rest)
            else String "&" (decodeFrom 0 rest)
          else String c (decodeFrom 0 rest)
      end
  end.

Definition decodeEntities (text : string) : string := decodeFrom 0 text.

(** The loop that reads an attribute value up to the closing quote. *)
Fixpoint readValue (quote : ascii) (s : string) : string * string :=
  match s with
  | EmptyString => (EmptyString, EmptyString)
  | String c s' =>
      if (c =? quote)%char then (EmptyString, s)
      else let (v, r) := readValue quote s' in (String c v, r)
  end.

(** The attribute loop of [parseNode]. *)
Fixpoint parseAttributes (fuel : nat) (s : string) (acc : list XmlAttribute)
  : result (list XmlAttribute * string) :=
  if eof s || startsWith ">" s || startsWith "/>" s then Ok (acc, s)
  else
    match fuel with
    | O => OutOfFuel
    | S fuel' =>
        let (attrName, s1) := parseName s in
        let s2 := skipWhitespace s1 in
        let (c, s3) := get s2 in
        if negb (c =? "=")%char then Err ExpectedEquals
        else
          let s4 := skipWhitespace s3 in
          let (quote, s5) := get s4 in
          if negb (quote =? dquote)%char && negb (quote =? squote)%char
          then Err ExpectedQuote
          else
            let (value, s6) := readValue quote s5 in
            let (c', s7) := get s6 in
            if negb (c' =? quote)%char then Err UnterminatedValue
            else
              parseAttributes fuel' (skipWhitespace s7)
                (acc ++ [mkXmlAttribute attrName (decodeEntities value)])%list
    end.

(** [node.children.push_back(c)] *)
Definition pushChild (node : XmlNode) (c : XmlNode) : XmlNode :=
  mkXmlNode (name node) (text node) (attributes node)
            (children node ++ [c])%list.

(** The flush of the pending text: [if (!textBuffer.empty())
    node.children.push_back(XmlNode{"#text", decodeEntities(textBuffer)})]. *)
Definition flushText (node : XmlNode) (textBuffer : string) : XmlNode :=
  if negb (empty textBuffer)
  then pushChild node (textNode (decodeEntities textBuffer))
  else node.

(** [parseNode], and the loop over the content of an element, which holds
    the node under construction and the pending text. *)
Fixpoint parseNode (fuel : nat) (s : string) : result (XmlNode * string) :=
  match fuel with
  | O => OutOfFuel
  | S fuel' =>
      if negb (startsWith "<" s) then Err ExpectedOpen
      else
        let s := snd (get s) in
        if startsWith "!--" s then
          ' (_, s) <- parseUntil "-->" (drop 3 s) ;;
          parseNode fuel' (skipWhitespace (drop 3 s))
        else if startsWith "![CDATA[" s then
          ' (t, s) <- parseUntil "]]>" (drop 8 s) ;;
          Ok (textNode t, drop 3 s)
        else
          let (name, s) := parseName s in
          ' (attrs, s) <- parseAttributes (String.length s) (skipWhitespace s) [] ;;
          let node := mkXmlNode name EmptyString attrs [] in
          if startsWith "/>" s then Ok (node, drop 2 s)
          else
            let (c, s) := get s in
            if negb (c =? ">")%char then Err ExpectedClose
            else parseContent fuel' node EmptyString s
  end
with parseContent (fuel : nat) (node : XmlNode) (textBuffer : string)
                  (s : string) : result (XmlNode * string) :=
  match fuel with
  | O => OutOfFuel
  | S fuel' =>
      if eof s then Ok (flushText node textBuffer, s)
      else if startsWith "</" s then
        let (endName, s) := parseName (drop 2 s) in
        if negb (endName =? name node) then
          Err (MismatchedClosingTag endName (name node))
        else
          let (c, s) := get (skipWhitespace s) in
          if negb (c =? ">")%char then Err ExpectedCloseAfterEnd
          else Ok (flushText node textBuffer, s)
      else if startsWith "<![CDATA[" s then
        let node := flushText node textBuffer in
        ' (cdata, s) <- parseUntil "]]>" (drop 9 s) ;;
        parseContent fuel' (pushChild node (textNode cdata)) EmptyString
                     (drop 3 s)
      else if startsWith "<!--" s then
        ' (_, s) <- parseUntil "-->" (drop 4 s) ;;
        parseContent fuel' node textBuffer (drop 3 s)
      else if startsWith "<" s then
        let node := flushText node textBuffer in
        ' (c, s) <- parseNode fuel' s ;;
        parseContent fuel' (pushChild node c) EmptyString s
      else
        let (c, s) := get s in
        parseContent fuel' node (textBuffer ++ String c EmptyString) s
  end.

(** [parse]: the prologue and the document type are skipped, then the root
    is parsed, here within [fuel] nested calls. *)
Definition parseWith (fuel : nat) (data : string) : result XmlNode :=
  let s := skipWhitespace data in
  s <- (if startsWith "<?" s
        then ' (_, s) <- parseUntil "?>" s ;; Ok (skipWhitespace (drop 2 s))
        else Ok s) ;;
  s <- (if startsWith "<!DOCTYPE" s
        then ' (_, s) <- parseUntil ">" s ;; Ok (skipWhitespace (snd (get s)))
        else Ok s) ;;
  ' (root, _) <- parseNode fuel s ;;
  Ok root.

(** No chain of calls of [parseNode] is longer than the input: this much
    fuel is never used up, and more of it changes nothing. *)
Definition parse (data : string) : result XmlNode :=
  parseWith (S (String.length data)) data.

(** ** The configuration loader (Config.cpp) *)

(** What the loader throws: the two exceptions of [std::stoi] and the
    runtime errors of the loader. *)
Inductive ConfigError : Type :=
| StoiInvalidArgument
| StoiOutOfRange
| UnableToReadFile (path : string)   (* Unable to read file: path *)
| FlagRequiresValue (flag : string)  (* Flag ... requires a value *)
| UnknownArgument (arg : string).    (* Unknown argument: arg *)

(** The outcome of the loader: a value, an exception, or the end of the
    process by [std::exit]. *)
Inductive outcome (A : Type) : Type :=
| Done (a : A)
| Thrown (e : ConfigError)
| Exited (code : Z).

Arguments Done {A} a.
Arguments Thrown {A} e.
Arguments Exited {A} code.

Definition andThen {A B : Type} (o : outcome A) (k : A -> outcome B)
  : outcome B :=
  match o with
  | Done a => k a
  | Thrown e => Thrown e
  | Exited c => Exited c
  end.

(** A [std::unordered_map<std::string, std::string>]: the keys are
    distinct; [find] and [operator[]] are all the loader uses. *)
Definition KeyValues : Type := list (string * string).

Fixpoint mapFind (key : string) (kv : KeyValues) : option string :=
  match kv with
  | [] => None
  | (k, v) :: kv' => if k =? key then Some v else mapFind key kv'
  end.

(** [kv[key] = value] *)
Fixpoint mapSet (key value : string) (kv : KeyValues) : KeyValues :=
  match kv with
  | [] => [(key, value)]
  | (k, v) :: kv' =>
      if k =? key then (key, value) :: kv' else (k, v) :: mapSet key value kv'
  end.

(** The lines that the [std::getline] loop reads. *)
Fixpoint getlines (content : string) : list string :=
  match content with
  | EmptyString => []
  | String c rest =>
      if (c =? "010")%char then EmptyString :: getlines rest
      else
        match getlines rest with
        | [] => [String c EmptyString]
        | line :: lines => String c line :: lines
        end
  end.

(** [s.substr(0, s.find(c))], the whole of [s] when [c] is not found. *)
Fixpoint upTo (c : ascii) (s : string) : string :=
  match s with
  | EmptyString => EmptyString
  | String d s' => if (d =? c)%char then EmptyString else String d (upTo c s')
  end.

(** [s.substr(s.find(c) + 1)], when [c] is found. *)
Fixpoint after (c : ascii) (s : string) : option string :=
  match s with
  | EmptyString => None
  | String d s' => if (d =? c)%char then Some s' else after c s'
  end.

(** The two lambdas of [parseYamlLike]. *)
Definition ltrim (s : string) : string := skipWhitespace s.

Fixpoint rtrim (s : string) : string :=
  match s with
  | EmptyString => EmptyString
  | String c s' =>
      match rtrim s' with
      | EmptyString => if isspace c then EmptyString else String c EmptyString
      | String d r => String c (String d r)
      end
  end.

Definition trim (s : string) : string := rtrim (ltrim s).

(** The body of the loop of [parseYamlLike] on one line. *)
Definition parseYamlLine (kv : KeyValues) (line : string) : KeyValues :=
  let line := upTo "#" line in
  match after ":" line with
  | None => kv
  | Some value =>
      let key := trim (upTo ":" line) in
      let value := trim value in
      if negb (empty key) then mapSet key value kv else kv
  end.

Definition parseYamlLike (content : string) : KeyValues :=
  fold_left parseYamlLine (getlines content) [].

(** [std::stoi]: leading white space, an optional sign, decimal digits;
    what follows the digits is not read. *)
Definition digit (c : ascii) : option Z :=
  let n := nat_of_ascii c in
  if ((48 <=? n) && (n <=? 57))%nat then Some (Z.of_nat n - 48)%Z else None.

Fixpoint readDigits (acc : Z) (s : string) : Z :=
  match s with
  | EmptyString => acc
  | String c s' =>
      match digit c with
      | Some d => readDigits (10 * acc + d)%Z s'
      | None => acc
      end
  end.

Definition stoi (str : string) : outcome Z :=
  let s := skipWhitespace str in
  let (negative, s) :=
    match s with
    | String c s' =>
        if (c =? "-")%char then (true, s')
        else if (c =? "+")%char then (false, s')
        else (false, s)
    | EmptyString => (false, s)
    end in
  match s with
  | EmptyString => Thrown StoiInvalidArgument
  | String c _ =>
      match digit c with
      | None => Thrown StoiInvalidArgument
      | Some _ =>
          let v := readDigits 0 s in
          let v := if negative then (- v)%Z else v in
          if ((Int.min_int <=? v) && (v <=? Int.max_int))%Z then Done v
          else Thrown StoiOutOfRange
      end
  end.

(** The setters of the fields of [Config]. *)
Definition withInput (v : string) (c : Config) : Config :=
  mkConfig v (outputMdxDir c) (cssOutputPath c) (projectName c)
           (headingOffset c) (emitIndex c).
Definition withOutput (v : string) (c : Config) : Config :=
  mkConfig (inputXmlDir c) v (cssOutputPath c) (projectName c)
           (headingOffset c) (emitIndex c).
Definition withCss (v : string) (c : Config) : Config :=
  mkConfig (inputXmlDir c) (outputMdxDir c) v (projectName c)
           (headingOffset c) (emitIndex c).
Definition withProject (v : string) (c : Config) : Config :=
  mkConfig (inputXmlDir c) (outputMdxDir c) (cssOutputPath c) v
           (headingOffset c) (emitIndex c).
Definition withOffset (v : Z) (c : Config) : Config :=
  mkConfig (inputXmlDir c) (outputMdxDir c) (cssOutputPath c) (projectName c)
           v (emitIndex c).
Definition withIndex (v : bool) (c : Config) : Config :=
  mkConfig (inputXmlDir c) (outputMdxDir c) (cssOutputPath c) (projectName c)
           (headingOffset c) v.

(** The configuration that [parseConfig] starts from. *)
Definition defaultConfig : Config :=
  mkConfig "docs/build/xml" "docs/mdx" "docs/doxygen.css" "Project" 0 true.

(** [if (auto v = find(key)) cfg.field = *v;] *)
Definition setIfFound (key : string) (kv : KeyValues)
           (set : string -> Config -> Config) (cfg : Config) : Config :=
  match mapFind key kv with
  | Some v => set v cfg
  | None => cfg
  end.

Definition parseConfig (kv : KeyValues) : outcome Config :=
  let cfg := defaultConfig in
  let cfg := setIfFound "input" kv withInput cfg in
  let cfg := setIfFound "output" kv withOutput cfg in
  let cfg := setIfFound "css" kv withCss cfg in
  let cfg := setIfFound "project" kv withProject cfg in
  andThen
    (match mapFind "heading_offset" kv with
     | Some v => andThen (stoi v) (fun n => Done (withOffset n cfg))
     | None => Done cfg
     end)
    (fun cfg =>
       Done (setIfFound "emit_index" kv
               (fun v => withIndex (negb (v =? "false"))) cfg)).

Section CommandLine.
(** The files that [loadFile] can read, by their path. *)
Variable files : string -> option string.

Definition loadFile (path : string) : outcome string :=
  match files path with
  | Some content => Done content
  | None => Thrown (UnableToReadFile path)
  end.

(** The loop of [applyCliArgs] over the arguments that are left. *)
Fixpoint cliLoop (cfg : Config) (args : list string) : outcome Config :=
  match args with
  | [] => Done cfg
  | arg :: rest =>
      if (arg =? "--help") || (arg =? "-h") then Exited 0
      else
        if arg =? "--config" then
          match rest with
          | [] => Thrown (FlagRequiresValue arg)
          | path :: rest' =>
              andThen (loadFile path) (fun content =>
              andThen (parseConfig (parseYamlLike content)) (fun cfg' =>
              cliLoop cfg' rest'))
          end
        else if (arg =? "--input") || (arg =? "-i") then
          match rest with
          | [] => Thrown (FlagRequiresValue arg)
          | value :: rest' => cliLoop (withInput value cfg) rest'
          end
        else if (arg =? "--output") || (arg =? "-o") then
          match rest with
          | [] => Thrown (FlagRequiresValue arg)
          | value :: rest' => cliLoop (withOutput value cfg) rest'
          end
        else if arg =? "--css" then
          match rest with
          | [] => Thrown (FlagRequiresValue arg)
          | value :: rest' => cliLoop (withCss value cfg) rest'
          end
        else if arg =? "--project" then
          match rest with
          | [] => Thrown (FlagRequiresValue arg)
          | value :: rest' => cliLoop (withProject value cfg) rest'
          end
        else if arg =? "--heading-offset" then
          match rest with
          | [] => Thrown (FlagRequiresValue arg)
          | value :: rest' =>
              andThen (stoi value) (fun n => cliLoop (withOffset n cfg) rest')
          end
        else if arg =? "--no-index" then cliLoop (withIndex false cfg) rest
        else Thrown (UnknownArgument arg)
  end.

(** [applyCliArgs]: [argv] with the name of the program first. *)
Definition applyCliArgs (argv : list string) : outcome Config :=
  andThen (parseConfig []) (fun cfg => cliLoop cfg (tl argv)).
End CommandLine.

(** * The vocabulary of the statements *)


(** The tag names that [renderNodeInline] handles on their own. *)
Definition handledTags : list string :=
  ["#text"; "bold"; "emphasis"; "computeroutput"; "ref"; "itemizedlist";
   "orderedlist"; "table"; "programlisting"; "para"].

(** The class of the wrapper of a tag: the fixed prefix, then the tag. *)
Definition wrapperClass (tag : string) : string := "doxygen-" ++ tag.

(** The cells of a row and the rows of a table, as the specification
    words them: a cell for each [entry] child, holding the inline rendering
    of the children of the entry; the rows with at least one cell. *)
Definition cellsOfRow (row : XmlNode) : list string :=
  map (fun entry => concat_all (map renderNodeInline (children entry)))
      (childrenNamed "entry" row).

Definition hasCells (cells : list string) : bool :=
  match cells with
  | [] => false
  | _ :: _ => true
  end.

Definition populatedRows (table : XmlNode) : list (list string) :=
  filter hasCells (map cellsOfRow (childrenNamed "row" table)).

Definition headerRow (cells : list string) : string :=
  "<tr>" ++ concat_all (map (fun c => "<th>" ++ c ++ "</th>") cells) ++
  "</tr>" ++ LF.

Definition bodyRow (cells : list string) : string :=
  "<tr>" ++ concat_all (map (fun c => "<td>" ++ c ++ "</td>") cells) ++
  "</tr>" ++ LF.

(** A table of a row without cell, a header row of two cells and one more
    row. *)
Definition sampleTable : XmlNode :=
  mkXmlNode "table" "" []
    [ mkXmlNode "row" "" [] [];
      mkXmlNode "row" "" []
        [ mkXmlNode "entry" "" [] [textNode "h"];
          mkXmlNode "entry" "" [] [mkXmlNode "bold" "" [] [textNode "x"]] ];
      mkXmlNode "row" "" [] [ mkXmlNode "entry" "" [] [textNode "1"] ] ].

(** A function with a definition and arguments, and an enumeration with a
    name only. *)
Definition sampleFunction : XmlNode :=
  mkXmlNode "memberdef" "" [mkXmlAttribute "kind" "function"]
    [ mkXmlNode "name" "" [] [textNode "join"];
      mkXmlNode "definition" "" [] [textNode "static std::string join"];
      mkXmlNode "argsstring" "" [] [textNode "(int n)"] ].

Definition sampleEnum : XmlNode :=
  mkXmlNode "memberdef" "" [mkXmlAttribute "kind" "enum"]
    [ mkXmlNode "name" "" [] [textNode "Color"] ].

(** Two runs over one document, the second one by a converter set up with
    other directories. *)
Definition sampleDocument : XmlNode :=
  mkXmlNode "doxygen" "" []
    [ mkXmlNode "compounddef" "" [mkXmlAttribute "kind" "file"]
        [ mkXmlNode "compoundname" "" [] [textNode "sample.hpp"];
          mkXmlNode "sectiondef" "" [mkXmlAttribute "kind" "func"]
            [ sampleFunction; sampleEnum ] ] ].

(** Every character of [s] satisfies [p]. *)
Fixpoint allChars (p : ascii -> bool) (s : string) : bool :=
  match s with
  | EmptyString => true
  | String c s' => p c && allChars p s'
  end.

(** A tag or attribute name as [parseName] reads it. *)
Definition isName (n : string) : bool := allChars isNameChar n.

(** Character data: no character of it opens a tag. *)
Definition plain (x : string) : bool :=
  allChars (fun c => negb (c =? "<")%char) x.

(** [parseName] stops in front of [s]. *)
Definition stopsName (s : string) : bool :=
  match s with
  | EmptyString => true
  | String c _ => negb (isNameChar c)
  end.

(** The first occurrence of [marker] in [c ++ marker] is the one at the
    end: [c] is the text that [parseUntil] returns. *)
Fixpoint closedBy (marker c : string) : bool :=
  match c with
  | EmptyString => true
  | String _ c' => negb (startsWith marker (c ++ marker)) && closedBy marker c'
  end.

(** The text children that pending text [x] is flushed to. *)
Definition texts (x : string) : list XmlNode :=
  if negb (empty x) then [textNode (decodeEntities x)] else [].

(** The five named entities and the character each stands for. *)
Definition entities : list (string * ascii) :=
  [("&lt;", "<"%char); ("&gt;", ">"%char); ("&amp;", "&"%char);
   ("&quot;", dquote); ("&apos;", squote)].

(** One of the five entities starts [s]. *)
Definition startsEntity (s : string) : bool :=
  existsb (fun e => startsWith (fst e) s) entities.

(** One of the five entities occurs in [s]. *)
Fixpoint hasEntity (s : string) : bool :=
  startsEntity s ||
  match s with
  | EmptyString => false
  | String _ s' => hasEntity s'
  end.

(** A run of opening tags, each followed by character data: the elements
    that are open, the outermost first. *)
Fixpoint openTags (ns : list (string * string)) : string :=
  match ns with
  | [] => ""
  | (n, t) :: ns' => "<" ++ n ++ ">" ++ t ++ openTags ns'
  end.

(** The name of the element that is open after [<n>] and [openTags ns]. *)
Fixpoint innermost (n : string) (ns : list (string * string)) : string :=
  match ns with
  | [] => n
  | (n', _) :: ns' => innermost n' ns'
  end.

Definition wellNamed (p : string * string) : Prop :=
  isName (fst p) = true /\ plain (snd p) = true.

(** The calls that the parser needs to get through [openTags ns]. *)
Fixpoint depth (ns : list (string * string)) : nat :=
  match ns with
  | [] => 0
  | (_, t) :: ns' => S (String.length t + S (depth ns'))
  end.

(** What [parse] does before the root: the white space, the prologue and
    the document type are skipped. *)
Definition skipProlog (data : string) : result string :=
  let s := skipWhitespace data in
  s <- (if startsWith "<?" s
        then ' (_, s) <- parseUntil "?>" s ;; Ok (skipWhitespace (drop 2 s))
        else Ok s) ;;
  (if startsWith "<!DOCTYPE" s
   then ' (_, s) <- parseUntil ">" s ;; Ok (skipWhitespace (snd (get s)))
   else Ok s).

(** [enters s node s']: at [s], after comments if any, [parseNode] reads
    the opening tag of [node] and starts on its content at [s']. *)
Inductive enters : string -> XmlNode -> string -> Prop :=
| enters_element (s nm s2 : string) (attrs : list XmlAttribute)
                 (s3 s4 : string) :
    startsWith "<" s = true ->
    startsWith "!--" (snd (get s)) = false ->
    startsWith "![CDATA[" (snd (get s)) = false ->
    parseName (snd (get s)) = (nm, s2) ->
    parseAttributes (String.length s2) (skipWhitespace s2) [] =
      Ok (attrs, s3) ->
    startsWith "/>" s3 = false ->
    get s3 = (">"%char, s4) ->
    enters s (mkXmlNode nm "" attrs []) s4
| enters_comment (s t r : string) (node : XmlNode) (s' : string) :
    startsWith "<" s = true ->
    startsWith "!--" (snd (get s)) = true ->
    parseUntil "-->" (drop 3 (snd (get s))) = Ok (t, r) ->
    enters (skipWhitespace (drop 3 r)) node s' ->
    enters s node s'.

(** In the content of an element, [s] starts with the tag of a child. *)
Definition atChild (s : string) : Prop :=
  startsWith "</" s = false /\ startsWith "<![CDATA[" s = false /\
  startsWith "<!--" s = false /\ startsWith "<" s = true.

(** [contentStep node buf s node' buf' s']: one turn of the content loop
    that does not end it, from the node under construction [node], the
    pending text [buf] and the input [s]. *)
Inductive contentStep :
  XmlNode -> string -> string -> XmlNode -> string -> string -> Prop :=
| step_text (node : XmlNode) (buf : string) (c : ascii) (s : string) :
    (c =? "<")%char = false ->
    contentStep node buf (String c s) node (buf ++ String c "") s
| step_comment (node : XmlNode) (buf s t r : string) :
    startsWith "<!--" s = true ->
    parseUntil "-->" (drop 4 s) = Ok (t, r) ->
    contentStep node buf s node buf (drop 3 r)
| step_cdata (node : XmlNode) (buf s t r : string) :
    startsWith "<![CDATA[" s = true ->
    parseUntil "]]>" (drop 9 s) = Ok (t, r) ->
    contentStep node buf s
                (pushChild (flushText node buf) (textNode t)) "" (drop 3 r)
| step_child (node : XmlNode) (buf s : string) (fuel : nat)
             (c : XmlNode) (r : string) :
    atChild s ->
    parseNode fuel s = Ok (c, r) ->
    contentStep node buf s (pushChild (flushText node buf) c) "" r.

(** [meetsMismatch node buf s m o]: the content loop of [node], started
    at [s], comes to a closing tag named [m] while the element that is
    open, [node] or one below it, is named [o], another name. *)
Inductive meetsMismatch :
  XmlNode -> string -> string -> string -> string -> Prop :=
| mismatch_here (node : XmlNode) (buf s m r : string) :
    startsWith "</" s = true ->
    parseName (drop 2 s) = (m, r) ->
    m <> name node ->
    meetsMismatch node buf s m (name node)
| mismatch_later (node : XmlNode) (buf s : string)
                 (node' : XmlNode) (buf' s' m o : string) :
    contentStep node buf s node' buf' s' ->
    meetsMismatch node' buf' s' m o ->
    meetsMismatch node buf s m o
| mismatch_below (node : XmlNode) (buf s : string)
                 (c : XmlNode) (s' m o : string) :
    atChild s ->
    enters s c s' ->
    meetsMismatch c "" s' m o ->
    meetsMismatch node buf s m o.

(** The text that stands for [s] in a document: each of the five
    characters that have a named entity is written as that entity. *)
Definition escapeChar (c : ascii) : string :=
  if (c =? "<")%char then "&lt;"
  else if (c =? ">")%char then "&gt;"
  else if (c =? "&")%char then "&amp;"
  else if (c =? dquote)%char then "&quot;"
  else if (c =? squote)%char then "&apos;"
  else String c "".

Fixpoint escape (s : string) : string :=
  match s with
  | EmptyString => EmptyString
  | String c s' => escapeChar c ++ escape s'
  end.

(** A text node, by its name. *)
Definition isText (node : XmlNode) : bool := name node =? "#text".

(** The document text of a tree: a text node is its escaped text; an
    element is its opening tag with the attributes in double quotes, its
    children and its closing tag. *)
Definition printAttr (a : XmlAttribute) : string :=
  " " ++ attr_name a ++ "=" ++ DQ ++ escape (attr_value a) ++ DQ.

Fixpoint printNode (node : XmlNode) : string :=
  if isText node then escape (text node)
  else
    "<" ++ name node ++ concat_all (map printAttr (attributes node)) ++ ">" ++
    concat_all (map printNode (children node)) ++
    "</" ++ name node ++ ">".

(** The shape of the trees that the parser builds: a text node has no
    attribute and no child; an element has a name and attribute names made
    of name characters, no text of its own, and children of that shape. *)
Fixpoint shaped (node : XmlNode) : bool :=
  if isText node then
    match attributes node, children node with
    | [], [] => true
    | _, _ => false
    end
  else
    isName (name node) && empty (text node) &&
    forallb (fun a => isName (attr_name a)) (attributes node) &&
    forallb shaped (children node).

(** No two text nodes in a row, and no empty text node. *)
Fixpoint textsApart (cs : list XmlNode) : bool :=
  match cs with
  | [] => true
  | a :: cs' =>
      negb (isText a && empty (text a)) &&
      match cs' with
      | [] => true
      | b :: _ => negb (isText a && isText b)
      end && textsApart cs'
  end.

(** The trees that a document text determines: of the shape above, with
    the texts of every element apart. *)
Fixpoint canonical (node : XmlNode) : bool :=
  textsApart (children node) && forallb canonical (children node).

(** The decimal digit [d] as a character, and the number that a row of
    decimal digits writes. *)
Definition digitChar (d : nat) : ascii := ascii_of_nat (48 + d).

Fixpoint digitsString (ds : list nat) : string :=
  match ds with
  | [] => EmptyString
  | d :: ds' => String (digitChar d) (digitsString ds')
  end.

Fixpoint digitsValue (acc : Z) (ds : list nat) : Z :=
  match ds with
  | [] => acc
  | d :: ds' => digitsValue (10 * acc + Z.of_nat d)%Z ds'
  end.

(** [stoi] stops reading in front of [s]. *)
Definition stopsDigits (s : string) : bool :=
  match s with
  | EmptyString => true
  | String c _ => match digit c with Some _ => false | None => true end
  end.

(** The three ways to write a sign in front of the digits. *)
Inductive Sign : Type := NoSign | Plus | Minus.

Definition signString (sg : Sign) : string :=
  match sg with NoSign => "" | Plus => "+" | Minus => "-" end.

Definition signed (sg : Sign) (v : Z) : Z :=
  match sg with Minus => (- v)%Z | _ => v end.

(** The character [c] does not occur in [s]. *)
Definition avoids (c : ascii) (s : string) : bool :=
  allChars (fun d => negb (d =? c)%char) s.

(** A key and a value as [parseYamlLike] stores them: without white space
    at either end, without [#] and without line feed; a key is not empty
    and holds no colon. *)
Definition cleanValue (v : string) : Prop :=
  trim v = v /\ avoids "#" v = true /\ avoids "010" v = true.

Definition cleanKey (k : string) : Prop :=
  empty k = false /\ cleanValue k /\ avoids ":" k = true.

(** The keys that [parseConfig] looks up. *)
Definition configKeys : list string :=
  ["input"; "output"; "css"; "project"; "heading_offset"; "emit_index"].

(** A file system with the one file [c.yaml]. *)
Definition oneFile (path : string) : option string :=
  if path =? "c.yaml" then Some "project: P" else None.

(** A tree to print and to parse back. *)
Definition sampleTree : XmlNode :=
  mkXmlNode "includes" "" [mkXmlAttribute "local" "a<b"; mkXmlAttribute "q" DQ]
    [ textNode "x & y";
      mkXmlNode "b" "" [] [mkXmlNode "c:d" "" [mkXmlAttribute "k" ""] []];
      textNode " > z " ].

(** * Properties *)

(** ** Strings and lists *)

Lemma append_nil_r (s : string) : s ++ "" = s.
Proof.
  induction s as [|c s IH]; simpl; [reflexivity | now rewrite IH].
Qed.

Lemma append_assoc (a b c : string) : (a ++ b) ++ c = a ++ (b ++ c).
Proof.
  induction a as [|x a IH]; simpl; [reflexivity | now rewrite IH].
Qed.

Lemma length_append (a b : string) :
  String.length (a ++ b) = String.length a + String.length b.
Proof.
  induction a as [|x a IH]; simpl; [reflexivity | now rewrite IH].
Qed.


Lemma forNamed_filter_map {A : Type} (key : string) (f : XmlNode -> A)
      (l : list XmlNode) :
  forNamed key f l = map f (filter (fun c => name c =? key) l).
Proof.
  induction l as [|c l IH]; simpl; [reflexivity|].
  destruct (name c =? key); simpl; now rewrite IH.
Qed.

Lemma forNamed_ext {A : Type} (key : string) (f g : XmlNode -> A)
      (l : list XmlNode) :
  (forall c, f c = g c) -> forNamed key f l = forNamed key g l.
Proof.
  intros E. rewrite !forNamed_filter_map. apply map_ext. exact E.
Qed.

(** ** Headings *)






(** ** Inline rendering *)

(** The body of [renderNodeInline], whatever the shape of the node. *)
Lemma renderNodeInline_eq (node : XmlNode) :
  renderNodeInline node =
  if name node =? "#text" then text node
  else if name node =? "bold" then "**" ++ nodeText node ++ "**"
  else if name node =? "emphasis" then "*" ++ nodeText node ++ "*"
  else if name node =? "computeroutput" then "`" ++ nodeText node ++ "`"
  else if name node =? "ref" then
    "[" ++ nodeText node ++ "](#" ++
    match attr "refid" node with
    | Some id => attr_value id
    | None => nodeText node
    end ++ ")"
  else if name node =? "itemizedlist" then LF ++ renderList node "-" ++ LF
  else if name node =? "orderedlist" then LF ++ renderList node "1." ++ LF
  else if name node =? "table" then LF ++ renderTable node ++ LF
  else if name node =? "programlisting" then LF ++ renderCode node ++ LF
  else if name node =? "para" then renderPara node
  else wrapUnknown node.
Proof.
  destruct node; reflexivity.
Qed.

Lemma eqb_not_in (x y : string) (l : list string) :
  ~ In x (y :: l) -> (x =? y) = false /\ ~ In x l.
Proof.
  intros H. split.
  - apply String.eqb_neq. intros E. apply H. left. now symmetry.
  - intros I. apply H. now right.
Qed.

(** C1.  [renderNodeInline] is a function defined on every node (its
    recursion is structural); on a node whose tag is none of the handled
    ones it yields the block wrapper whose class is the prefix [doxygen-]
    followed by the tag name, around the inline rendering of the
    children. *)
Theorem renderNodeInline_unknown (node : XmlNode) :
  ~ In (name node) handledTags ->
  renderNodeInline node =
  "<div class=" ++ DQ ++ wrapperClass (name node) ++ DQ ++ ">" ++
  concat_all (map renderNodeInline (children node)) ++ "</div>".
Proof.
  intros H. rewrite renderNodeInline_eq. unfold handledTags in H.
  repeat match type of H with
         | ~ In _ (_ :: _) =>
             apply eqb_not_in in H; destruct H as [E H]; rewrite E; clear E
         end.
  reflexivity.
Qed.

(** The element [xrefsect] around the text [hi]. *)
Lemma renderNodeInline_unknown_witness :
  ~ In "xrefsect" handledTags /\
  renderNodeInline (mkXmlNode "xrefsect" "" [] [textNode "hi"]) =
  "<div class=" ++ DQ ++ "doxygen-xrefsect" ++ DQ ++ ">hi</div>".
Proof.
  assert (H : ~ In "xrefsect" handledTags).
  { simpl. intros H.
    repeat (destruct H as [H|H]; [discriminate H|]). exact H. }
  split; [exact H|].
  exact (renderNodeInline_unknown
           (mkXmlNode "xrefsect" "" [] [textNode "hi"]) H).
Defined.

(** ** Tables *)

Lemma rowCells_spec (row : XmlNode) : rowCells row = cellsOfRow row.
Proof.
  unfold rowCells, rowCells_of, cellsOfRow, childrenNamed.
  apply forNamed_filter_map.
Qed.

Lemma tableRows_spec (l : list XmlNode) :
  tableRows l =
  filter hasCells (map cellsOfRow (filter (fun c => name c =? "row") l)).
Proof.
  induction l as [|row l IH]; [reflexivity|].
  unfold tableRows in *. simpl.
  fold (rowCells row). rewrite rowCells_spec.
  destruct (name row =? "row"); simpl; [|exact IH].
  destruct (cellsOfRow row); simpl; now rewrite IH.
Qed.

Lemma renderRow_header (cells : list string) :
  renderRow true cells = headerRow cells.
Proof. reflexivity. Qed.

(** Past the index 0 every row is a body row. *)
Lemma renderRows_succ (r : nat) (rows : list (list string)) :
  renderRows (S r) rows = concat_all (map bodyRow rows).
Proof.
  revert r. induction rows as [|cells rows IH]; intros r; [reflexivity|].
  simpl renderRows. rewrite IH. reflexivity.
Qed.

Lemma renderTable_eq (node : XmlNode) :
  renderTable node =
  match populatedRows node with
  | [] => ""
  | header :: body =>
      "<table class=" ++ DQ ++ "doxygen-table" ++ DQ ++ ">" ++ LF ++
      headerRow header ++ concat_all (map bodyRow body) ++
      "</table>" ++ LF
  end.
Proof.
  pose proof (tableRows_spec (children node)) as E.
  unfold renderTable, renderTable_of, populatedRows, childrenNamed.
  unfold tableRows in E. rewrite E. clear E.
  destruct (filter hasCells _) as [|header body]; [reflexivity|].
  cbn [renderRows Nat.eqb]. rewrite renderRows_succ.
  rewrite (renderRow_header header).
  rewrite !append_assoc. reflexivity.
Qed.

(** C8.  A table is rendered from the rows that have at least one cell;
    a row without cell is left out.  The first of the rendered rows is a
    header row and each later one a body row, a cell holding the inline
    rendering of the children of its entry.  A table with a single such
    row is that header row alone. *)
Theorem renderTable_header_then_body (node : XmlNode) :
  (forall header body, populatedRows node = header :: body ->
     renderTable node =
     "<table class=" ++ DQ ++ "doxygen-table" ++ DQ ++ ">" ++ LF ++
     headerRow header ++ concat_all (map bodyRow body) ++
     "</table>" ++ LF) /\
  (forall row, populatedRows node = [row] ->
     renderTable node =
     "<table class=" ++ DQ ++ "doxygen-table" ++ DQ ++ ">" ++ LF ++
     headerRow row ++ "</table>" ++ LF) /\
  (forall rows1 row rows2,
     children node = (rows1 ++ row :: rows2)%list ->
     cellsOfRow row = [] ->
     renderTable node =
     renderTable (mkXmlNode (name node) (text node) (attributes node)
                            (rows1 ++ rows2)%list)).
Proof.
  split; [|split].
  - intros header body E. rewrite renderTable_eq, E. reflexivity.
  - intros row E. rewrite renderTable_eq, E. reflexivity.
  - intros rows1 row rows2 E C.
    rewrite !renderTable_eq. unfold populatedRows, childrenNamed.
    simpl children. rewrite E, !filter_app, !map_app, !filter_app.
    simpl filter. destruct (name row =? "row"); [|reflexivity].
    simpl. rewrite C. reflexivity.
Qed.

Lemma renderTable_header_then_body_witness :
  populatedRows sampleTable = ["h"; "**x**"] :: [["1"]] /\
  renderTable sampleTable =
  "<table class=" ++ DQ ++ "doxygen-table" ++ DQ ++ ">" ++ LF ++
  "<tr><th>h</th><th>**x**</th></tr>" ++ LF ++
  "<tr><td>1</td></tr>" ++ LF ++
  "</table>" ++ LF.
Proof.
  assert (E : populatedRows sampleTable = ["h"; "**x**"] :: [["1"]])
    by reflexivity.
  split; [exact E|].
  exact (proj1 (renderTable_header_then_body sampleTable) _ _ E).
Defined.

(** C10.  A table none of whose rows has a cell entry, and so a table
    without rows, renders to the empty string. *)
Theorem renderTable_no_cells (node : XmlNode) :
  (forall row, In row (children node) -> name row = "row" ->
   forall entry, In entry (children row) -> name entry <> "entry") ->
  renderTable node = "".
Proof.
  intros H. rewrite renderTable_eq.
  replace (populatedRows node) with (@nil (list string)); [reflexivity|].
  symmetry. unfold populatedRows, childrenNamed.
  induction (children node) as [|row l IH]; [reflexivity|].
  simpl filter at 2. destruct (String.eqb_spec (name row) "row") as [R|R].
  - simpl. replace (cellsOfRow row) with (@nil string).
    + simpl. apply IH. intros r I. apply H. now right.
    + symmetry. unfold cellsOfRow, childrenNamed.
      assert (K : forall entry, In entry (children row) ->
                                name entry <> "entry").
      { apply H; [now left | exact R]. }
      induction (children row) as [|e es IHe]; [reflexivity|].
      simpl. destruct (String.eqb_spec (name e) "entry") as [N|N].
      * exfalso. apply (K e); [now left | exact N].
      * apply IHe. intros e' I. apply K. now right.
  - apply IH. intros r I. apply H. now right.
Qed.

(** A table whose one row holds a text and no entry. *)
Lemma renderTable_no_cells_witness :
  renderTable (mkXmlNode "table" "" []
                 [mkXmlNode "row" "" [] [textNode "x"]; textNode " "]) = "".
Proof.
  apply renderTable_no_cells. simpl. intros row [R|[R|[]]] N; subst row.
  - intros entry [E|[]]. subst entry. simpl. discriminate.
  - discriminate N.
Defined.

(** ** Members *)

(** C7.  The heading of a member shows its signature: the text of the
    definition followed by the text of the argument string when the member
    has a definition (the text of its definition child is not empty), and
    the name of the member otherwise, which is [member] when the member has
    no name child. *)
Theorem renderMember_signature (config_ : Config) (member : XmlNode)
        (level : Z) :
  renderMember config_ member level =
    heading level (headingOffset config_) ++ " " ++
    memberSignature member ++ LF ++ LF ++
    renderDescriptionOf "briefdescription" member ++
    renderDescriptionOf "detaileddescription" member /\
  (memberDef member <> "" ->
   memberSignature member = memberDef member ++ memberArgs member) /\
  (memberDef member = "" -> memberSignature member = memberName member) /\
  (child "definition" member = None ->
   memberSignature member = memberName member) /\
  (forall d, child "definition" member = Some d ->
   memberDef member = nodeText d) /\
  (forall a, child "argsstring" member = Some a ->
   memberArgs member = nodeText a) /\
  (forall n, child "name" member = Some n ->
   memberName member = nodeText n) /\
  (child "name" member = None -> memberName member = "member").
Proof.
  unfold memberSignature, memberDef, memberArgs, memberName, childText.
  repeat split.
  - intros H. destruct (child "definition" member) as [d|]; [|congruence].
    destruct (nodeText d); [congruence | reflexivity].
  - intros H. now rewrite H.
  - intros H. now rewrite H.
  - intros d H. now rewrite H.
  - intros a H. now rewrite H.
  - intros n H. now rewrite H.
  - intros H. now rewrite H.
Qed.

Lemma renderMember_signature_witness :
  (memberDef sampleFunction <> "" /\
   memberSignature sampleFunction = "static std::string join(int n)") /\
  (child "definition" sampleEnum = None /\
   memberSignature sampleEnum = "Color").
Proof.
  assert (D : memberDef sampleFunction <> "") by (simpl; discriminate).
  assert (N : child "definition" sampleEnum = None) by reflexivity.
  pose proof (renderMember_signature
                (mkConfig "" "" "" "" 0 true) sampleFunction 3) as F.
  pose proof (renderMember_signature
                (mkConfig "" "" "" "" 0 true) sampleEnum 3) as E.
  split; split.
  - exact D.
  - exact (proj1 (proj2 F) D).
  - exact N.
  - exact (proj1 (proj2 (proj2 (proj2 E))) N).
Defined.

(** ** Documents *)

Lemma renderMember_offset (c1 c2 : Config) (member : XmlNode) (level : Z) :
  headingOffset c1 = headingOffset c2 ->
  renderMember c1 member level = renderMember c2 member level.
Proof.
  intros H. unfold renderMember. now rewrite H.
Qed.

Lemma renderSection_offset (c1 c2 : Config) (section : XmlNode) :
  headingOffset c1 = headingOffset c2 ->
  renderSection c1 section = renderSection c2 section.
Proof.
  intros H. unfold renderSection. rewrite H.
  rewrite (forNamed_ext "memberdef"
             (fun member => renderMember c1 member 3)
             (fun member => renderMember c2 member 3)); [reflexivity|].
  intros m. now apply renderMember_offset.
Qed.

Lemma renderCompound_offset (c1 c2 : Config) (compound : XmlNode) :
  headingOffset c1 = headingOffset c2 ->
  renderCompound c1 compound = renderCompound c2 compound.
Proof.
  intros H. unfold renderCompound. rewrite H.
  rewrite (map_ext (renderSection c1) (renderSection c2)); [reflexivity|].
  intros s. now apply renderSection_offset.
Qed.

(** C9.  Rendering a document is a function of the tree and of the
    heading offset alone: two runs on the same tree, under options records
    with the same heading offset, give the same text. *)
Theorem renderDocument_deterministic (c1 c2 : Config) (root1 root2 : XmlNode) :
  root1 = root2 ->
  headingOffset c1 = headingOffset c2 ->
  renderDocument c1 root1 = renderDocument c2 root2.
Proof.
  intros R H. subst root2. unfold renderDocument.
  rewrite (map_ext (fun comp => renderCompound c1 comp ++ LF)
                   (fun comp => renderCompound c2 comp ++ LF)).
  - now rewrite (renderCompound_offset c1 c2 root1 H).
  - intros comp. now rewrite (renderCompound_offset c1 c2 comp H).
Qed.

Lemma renderDocument_deterministic_witness :
  renderDocument (mkConfig "xml" "mdx" "" "P" 1 true) sampleDocument =
  renderDocument (mkConfig "in" "out" "x.css" "Q" 1 false) sampleDocument.
Proof.
  apply renderDocument_deterministic; reflexivity.
Defined.

(** ** Scanning *)

Lemma startsWith_app (p s : string) : startsWith p (p ++ s) = true.
Proof.
  induction p as [|a p IH]; simpl; [reflexivity|].
  now rewrite Ascii.eqb_refl, IH.
Qed.

Lemma startsWith_app_long (p a b : string) :
  String.length p <= String.length a ->
  startsWith p (a ++ b) = startsWith p a.
Proof.
  revert a. induction p as [|x p IH]; intros a L; [reflexivity|].
  destruct a as [|y a]; simpl in *; [lia|].
  rewrite IH by lia. reflexivity.
Qed.

Lemma startsWith_length (p s : string) :
  startsWith p s = true -> String.length p <= String.length s.
Proof.
  revert s. induction p as [|a p IH]; intros s H; simpl in *; [lia|].
  destruct s as [|b s]; [discriminate|].
  apply andb_prop in H. destruct H as [_ H]. apply IH in H. simpl. lia.
Qed.

Lemma drop_app (p s : string) : drop (String.length p) (p ++ s) = s.
Proof.
  induction p as [|a p IH]; simpl; [reflexivity | exact IH].
Qed.

Lemma drop_length (n : nat) (s : string) :
  String.length (drop n s) = String.length s - n.
Proof.
  revert s. induction n as [|n IH]; intros s; simpl; [lia|].
  destruct s as [|c s]; simpl; [reflexivity | apply IH].
Qed.

Lemma parseName_app (n s : string) :
  isName n = true -> stopsName s = true -> parseName (n ++ s) = (n, s).
Proof.
  intros N S. induction n as [|c n IH]; cbn [append parseName].
  - destruct s as [|c s]; [reflexivity|]. cbn [stopsName] in S.
    apply negb_true_iff in S. cbn [parseName]. now rewrite S.
  - cbn [isName allChars] in N. apply andb_prop in N. destruct N as [C N].
    rewrite C, (IH N). reflexivity.
Qed.

Lemma parseUntil_app (marker c rest : string) :
  closedBy marker c = true ->
  parseUntil marker (c ++ marker ++ rest) = Ok (c, marker ++ rest).
Proof.
  induction c as [|x c IH]; intros H.
  - simpl append. destruct marker; simpl.
    + destruct rest; reflexivity.
    + rewrite Ascii.eqb_refl, startsWith_app. reflexivity.
  - simpl in H. apply andb_prop in H. destruct H as [F H].
    apply negb_true_iff in F.
    change (String x c ++ marker ++ rest) with (String x (c ++ marker ++ rest)).
    cbn [parseUntil].
    replace (startsWith marker (String x (c ++ marker ++ rest))) with false.
    + rewrite (IH H). reflexivity.
    + symmetry. rewrite <- F.
      change (String x (c ++ marker ++ rest))
        with (String x c ++ marker ++ rest).
      rewrite <- append_assoc. apply startsWith_app_long.
      cbn [append String.length]. rewrite length_append. lia.
Qed.

Lemma parseUntil_end (marker s : string) :
  (forall n, startsWith marker (drop n s) = false) ->
  parseUntil marker s = Err UnexpectedEnd.
Proof.
  induction s as [|c s IH]; intros H.
  - pose proof (H 0) as H0. simpl in H0. destruct marker; simpl in *.
    + discriminate.
    + reflexivity.
  - pose proof (H 0) as H0. simpl drop in H0.
    cbn [parseUntil]. rewrite H0. rewrite IH; [reflexivity|].
    intros n. exact (H (S n)).
Qed.

Lemma isNameChar_not (c d : ascii) :
  isNameChar c = true -> isNameChar d = false -> (d =? c)%char = false.
Proof.
  intros C D. destruct (Ascii.eqb_spec d c) as [E|E]; [|reflexivity].
  subst d. congruence.
Qed.

Lemma parseAttributes_done (fuel : nat) (s : string) (acc : list XmlAttribute) :
  eof s || startsWith ">" s || startsWith "/>" s = true ->
  parseAttributes fuel s acc = Ok (acc, s).
Proof.
  intros H. destruct fuel; cbn [parseAttributes]; now rewrite H.
Qed.

(** ** Steps of the parser *)

Lemma startsWith_cons (a : ascii) (p s : string) :
  startsWith (String a p) (String a s) = startsWith p s.
Proof.
  cbn [startsWith]. now rewrite Ascii.eqb_refl.
Qed.

Lemma startsWith_nil (s : string) : startsWith "" s = true.
Proof. reflexivity. Qed.

Lemma startsWith_name (d : ascii) (p n s : string) :
  isName n = true -> isNameChar d = false -> (d =? ">")%char = false ->
  startsWith (String d p) (n ++ ">" ++ s) = false.
Proof.
  intros N D G. destruct n as [|c n]; cbn [append startsWith].
  - now rewrite G.
  - cbn [isName allChars] in N. apply andb_prop in N. destruct N as [C _].
    now rewrite (isNameChar_not c d C D).
Qed.

(** An opening tag without attributes: the parser enters the content of
    the element. *)
Lemma parseNode_open (fuel : nat) (n s : string) :
  isName n = true ->
  parseNode (S fuel) ("<" ++ n ++ ">" ++ s) =
  parseContent fuel (mkXmlNode n "" [] []) "" s.
Proof.
  intros N. change ("<" ++ n ++ ">" ++ s) with (String "<" (n ++ ">" ++ s)).
  cbn [parseNode]. 
  change (startsWith "<" (String "<" (n ++ ">" ++ s))) with true.
  cbn [negb get snd].
  rewrite (startsWith_name "!" "--" n s N eq_refl eq_refl).
  rewrite (startsWith_name "!" "[CDATA[" n s N eq_refl eq_refl).
  rewrite (parseName_app n (">" ++ s) N eq_refl).
  cbn [append skipWhitespace].
  replace (isspace ">") with false by reflexivity.
  rewrite parseAttributes_done by reflexivity.
  reflexivity.
Qed.

(** In the content of an element, the opening tag of a child: the pending
    text is flushed, the child is parsed and appended. *)
Lemma parseContent_child (fuel : nat) (node : XmlNode) (buf n s : string) :
  isName n = true ->
  parseContent (S fuel) node buf ("<" ++ n ++ ">" ++ s) =
  ' (c, s') <- parseNode fuel ("<" ++ n ++ ">" ++ s) ;;
  parseContent fuel (pushChild (flushText node buf) c) "" s'.
Proof.
  intros N. change ("<" ++ n ++ ">" ++ s) with (String "<" (n ++ ">" ++ s)).
  cbn [parseContent eof empty]. rewrite !startsWith_cons.
  rewrite (startsWith_name "/" "" n s N eq_refl eq_refl).
  rewrite (startsWith_name "!" "[CDATA[" n s N eq_refl eq_refl).
  rewrite (startsWith_name "!" "--" n s N eq_refl eq_refl).
  reflexivity.
Qed.

(** In the content of an element, a closing tag of another name. *)
Lemma parseContent_mismatch (fuel : nat) (node : XmlNode)
      (buf s endName s' : string) :
  startsWith "</" s = true ->
  parseName (drop 2 s) = (endName, s') ->
  endName <> name node ->
  parseContent (S fuel) node buf s =
  Err (MismatchedClosingTag endName (name node)).
Proof.
  intros C P D. cbn [parseContent].
  destruct s as [|c s]; [discriminate C|].
  cbn [eof empty]. rewrite C, P.
  apply String.eqb_neq in D. now rewrite D.
Qed.

(** In the content of an element, its closing tag. *)
Lemma parseContent_close (fuel : nat) (node : XmlNode) (buf s : string) :
  isName (name node) = true ->
  parseContent (S fuel) node buf ("</" ++ name node ++ ">" ++ s) =
  Ok (flushText node buf, s).
Proof.
  intros N.
  change ("</" ++ name node ++ ">" ++ s)
    with (String "<" (String "/" (name node ++ ">" ++ s))).
  cbn [parseContent eof empty drop]. rewrite !startsWith_cons, startsWith_nil.
  rewrite (parseName_app (name node) (">" ++ s) N eq_refl).
  rewrite String.eqb_refl. reflexivity.
Qed.

(** In the content of an element, character data joins the pending
    text. *)
Lemma parseContent_text (x : string) :
  forall (fuel : nat) (node : XmlNode) (buf s : string),
  plain x = true ->
  parseContent (String.length x + fuel) node buf (x ++ s) =
  parseContent fuel node (buf ++ x) s.
Proof.
  induction x as [|c x IH]; intros fuel node buf s P.
  - now rewrite append_nil_r.
  - cbn [plain allChars] in P. apply andb_prop in P. destruct P as [C P].
    apply negb_true_iff in C.
    cbn [String.length Nat.add append parseContent eof empty startsWith get].
    rewrite Ascii.eqb_sym in C. rewrite C. cbn [andb].
    rewrite (IH fuel node (buf ++ String c "") s P).
    rewrite append_assoc. reflexivity.
Qed.

(** In the content of an element, a comment: it is skipped, and neither
    the children nor the pending text change. *)
Lemma parseContent_comment (fuel : nat) (node : XmlNode) (buf c s : string) :
  closedBy "-->" c = true ->
  parseContent (S fuel) node buf ("<!--" ++ c ++ "-->" ++ s) =
  parseContent fuel node buf s.
Proof.
  intros C.
  change ("<!--" ++ c ++ "-->" ++ s)
    with (String "<" (String "!" (String "-" (String "-" (c ++ "-->" ++ s))))).
  cbn [parseContent eof empty drop].
  replace (startsWith "</" _) with false by reflexivity.
  replace (startsWith "<![CDATA[" _) with false by reflexivity.
  rewrite !startsWith_cons, startsWith_nil.
  rewrite (parseUntil_app "-->" c s C). reflexivity.
Qed.

(** In the content of an element, a CDATA section: the pending text is
    flushed, and the section is a text child of its own. *)
Lemma parseContent_cdata (fuel : nat) (node : XmlNode) (buf c s : string) :
  closedBy "]]>" c = true ->
  parseContent (S fuel) node buf ("<![CDATA[" ++ c ++ "]]>" ++ s) =
  parseContent fuel (pushChild (flushText node buf) (textNode c)) "" s.
Proof.
  intros C.
  change ("<![CDATA[" ++ c ++ "]]>" ++ s)
    with ("<![CDATA[" ++ (c ++ "]]>" ++ s)).
  cbn [parseContent].
  replace (eof _) with false by reflexivity.
  replace (startsWith "</" _) with false by reflexivity.
  rewrite startsWith_app.
  change 9 with (String.length "<![CDATA["). rewrite drop_app.
  rewrite (parseUntil_app "]]>" c s C). reflexivity.
Qed.

(** In the content of an element, the end of input: the loop ends and the
    node is returned. *)
Lemma parseContent_eof (fuel : nat) (node : XmlNode) (buf : string) :
  parseContent (S fuel) node buf "" = Ok (flushText node buf, "").
Proof. reflexivity. Qed.

(** ** Documents made of one element *)

Lemma flushText_children (node : XmlNode) (x : string) :
  flushText node x =
  mkXmlNode (name node) (text node) (attributes node)
            (children node ++ texts x)%list.
Proof.
  unfold flushText, texts, pushChild.
  destruct (negb (empty x)); [reflexivity|].
  rewrite app_nil_r. now destruct node.
Qed.

(** A document that starts with an opening tag has no prologue. *)
Lemma parse_element (n s : string) :
  isName n = true ->
  parse ("<" ++ n ++ ">" ++ s) =
  ' (root, _) <- parseContent (String.length ("<" ++ n ++ ">" ++ s))
                              (mkXmlNode n "" [] []) "" s ;;
  Ok root.
Proof.
  intros N. unfold parse, parseWith.
  replace (skipWhitespace ("<" ++ n ++ ">" ++ s)) with ("<" ++ n ++ ">" ++ s)
    by reflexivity.
  replace (startsWith "<?" ("<" ++ n ++ ">" ++ s)) with false
    by (symmetry; apply (startsWith_name "?" "" n s N eq_refl eq_refl)).
  cbn [bind].
  replace (startsWith "<!DOCTYPE" ("<" ++ n ++ ">" ++ s)) with false
    by (symmetry; apply (startsWith_name "!" "DOCTYPE" n s N eq_refl eq_refl)).
  cbn [bind]. rewrite (parseNode_open _ n s N). reflexivity.
Qed.

Ltac fuel_is f :=
  match goal with
  | |- context [parseContent ?F _ _ _] =>
      replace F with f
        by (repeat rewrite length_append; cbn [String.length]; lia)
  end.

(** An element whose content is character data: one text child, decoded. *)
Lemma parse_text_element (n x : string) :
  isName n = true -> plain x = true ->
  parse ("<" ++ n ++ ">" ++ x ++ "</" ++ n ++ ">") =
  Ok (mkXmlNode n "" [] (texts x)).
Proof.
  intros N X. rewrite (parse_element n _ N).
  fuel_is (String.length x + S (2 * String.length n + 4)).
  rewrite (parseContent_text x _ _ _ _ X).
  rewrite (parseContent_close _ (mkXmlNode n "" [] []) _ "" N).
  cbn [bind]. now rewrite flushText_children.
Qed.

(** An element that the input ends in, its closing tag missing. *)
Lemma parse_unclosed_element (n x : string) :
  isName n = true -> plain x = true ->
  parse ("<" ++ n ++ ">" ++ x) = Ok (mkXmlNode n "" [] (texts x)).
Proof.
  intros N X. rewrite (parse_element n _ N).
  rewrite <- (append_nil_r x) at 2.
  fuel_is (String.length x + S (String.length n + 1)).
  rewrite (parseContent_text x _ _ _ _ X), parseContent_eof.
  cbn [bind]. now rewrite flushText_children.
Qed.

(** Character data, a comment, character data: one text child. *)
Lemma parse_comment_element (n x c y : string) :
  isName n = true -> plain x = true -> plain y = true ->
  closedBy "-->" c = true ->
  parse ("<" ++ n ++ ">" ++ x ++ "<!--" ++ c ++ "-->" ++ y ++ "</" ++ n ++ ">") =
  Ok (mkXmlNode n "" [] (texts (x ++ y))).
Proof.
  intros N X Y C. rewrite (parse_element n _ N).
  fuel_is (String.length x +
           S (String.length y +
              S (2 * String.length n + String.length c + 10))).
  rewrite (parseContent_text x _ _ _ _ X).
  rewrite (parseContent_comment _ _ _ c _ C).
  rewrite (parseContent_text y _ _ _ _ Y).
  rewrite (parseContent_close _ (mkXmlNode n "" [] []) _ "" N).
  cbn [bind]. now rewrite flushText_children.
Qed.

(** Character data, a CDATA section, character data: the section is a
    text child of its own, between the text before it and the text after
    it. *)
Lemma parse_cdata_element (n x c y : string) :
  isName n = true -> plain x = true -> plain y = true ->
  closedBy "]]>" c = true ->
  parse ("<" ++ n ++ ">" ++ x ++ "<![CDATA[" ++ c ++ "]]>" ++ y ++
         "</" ++ n ++ ">") =
  Ok (mkXmlNode n "" [] (texts x ++ [textNode c] ++ texts y)%list).
Proof.
  intros N X Y C. rewrite (parse_element n _ N).
  fuel_is (String.length x +
           S (String.length y +
              S (2 * String.length n + String.length c + 15))).
  rewrite (parseContent_text x _ _ _ _ X).
  rewrite (parseContent_cdata _ _ _ c _ C).
  rewrite (parseContent_text y _ _ _ _ Y).
  rewrite !flushText_children. cbn [pushChild name text attributes children].
  rewrite (parseContent_close
             _ (mkXmlNode n "" [] (([] ++ texts x) ++ [textNode c])%list)
             _ "" N).
  cbn [bind]. rewrite flushText_children.
  cbn [name text attributes children app append]. now rewrite <- app_assoc.
Qed.

(** ** Entities *)

Lemma decodeEntities_entity (e : string) (c : ascii) (rest : string) :
  In (e, c) entities ->
  decodeEntities (e ++ rest) = String c (decodeEntities rest).
Proof.
  intros I. unfold entities in I. simpl in I.
  repeat (destruct I as [I|I]; [inversion I; subst; reflexivity|]).
  contradiction.
Qed.

Lemma startsEntity_false (s : string) :
  startsEntity s = false ->
  startsWith "&lt;" s = false /\ startsWith "&gt;" s = false /\
  startsWith "&amp;" s = false /\ startsWith "&quot;" s = false /\
  startsWith "&apos;" s = false.
Proof.
  unfold startsEntity, entities. cbn [existsb fst]. intros H.
  repeat (apply orb_false_elim in H; destruct H as [? H]).
  repeat split; assumption.
Qed.

Lemma decodeEntities_other (c : ascii) (rest : string) :
  startsEntity (String c rest) = false ->
  decodeEntities (String c rest) = String c (decodeEntities rest).
Proof.
  intros H. apply startsEntity_false in H.
  destruct H as (H1 & H2 & H3 & H4 & H5).
  unfold decodeEntities. cbn [decodeFrom].
  destruct (Ascii.eqb_spec c "&") as [E|E]; [|reflexivity].
  subst c. now rewrite H1, H2, H3, H4, H5.
Qed.

Lemma decodeEntities_literal (text : string) :
  hasEntity text = false -> decodeEntities text = text.
Proof.
  induction text as [|c text IH]; intros H; [reflexivity|].
  cbn [hasEntity] in H. apply orb_false_elim in H. destruct H as [H1 H2].
  rewrite (decodeEntities_other c text H1), (IH H2). reflexivity.
Qed.

(** ** Attributes *)

Lemma startsWith_name_then (d e : ascii) (p n s : string) :
  isName n = true -> isNameChar d = false -> (d =? e)%char = false ->
  startsWith (String d p) (n ++ String e s) = false.
Proof.
  intros N D G. destruct n as [|c n]; cbn [append startsWith].
  - now rewrite G.
  - cbn [isName allChars] in N. apply andb_prop in N. destruct N as [C _].
    now rewrite (isNameChar_not c d C D).
Qed.

Lemma readValue_app (quote : ascii) (v s : string) :
  allChars (fun c => negb (c =? quote)%char) v = true ->
  readValue quote (v ++ String quote s) = (v, String quote s).
Proof.
  intros V. induction v as [|c v IH]; cbn [append readValue].
  - now rewrite Ascii.eqb_refl.
  - cbn [allChars] in V. apply andb_prop in V. destruct V as [C V].
    apply negb_true_iff in C. rewrite C, (IH V). reflexivity.
Qed.

(** One attribute in double quotes, then the end of a self-closing tag. *)
Lemma parseAttributes_one (fuel : nat) (k v s : string)
      (acc : list XmlAttribute) :
  isName k = true ->
  allChars (fun c => negb (c =? dquote)%char) v = true ->
  parseAttributes (S fuel) (k ++ "=" ++ DQ ++ v ++ DQ ++ "/>" ++ s) acc =
  Ok ((acc ++ [mkXmlAttribute k (decodeEntities v)])%list, "/>" ++ s).
Proof.
  intros K V.
  change (k ++ "=" ++ DQ ++ v ++ DQ ++ "/>" ++ s)
    with (k ++ String "=" (String dquote (v ++ String dquote ("/>" ++ s)))).
  cbn [parseAttributes].
  replace (eof _ || startsWith ">" _ || startsWith "/>" _) with false.
  - rewrite (parseName_app k (String "=" _) K eq_refl).
    cbn [skipWhitespace]. replace (isspace "=") with false by reflexivity.
    cbn [get]. replace (negb ("=" =? "=")%char) with false by reflexivity.
    cbn [skipWhitespace]. replace (isspace dquote) with false by reflexivity.
    cbn [get]. rewrite Ascii.eqb_refl. cbn [negb andb].
    rewrite (readValue_app dquote v _ V). cbn [get].
    rewrite Ascii.eqb_refl. cbn [negb].
    replace (skipWhitespace ("/>" ++ s)) with ("/>" ++ s) by reflexivity.
    now rewrite parseAttributes_done by reflexivity.
  - symmetry.
    rewrite (startsWith_name_then ">" "=" "" k _ K eq_refl eq_refl).
    rewrite (startsWith_name_then "/" "=" ">" k _ K eq_refl eq_refl).
    destruct k; reflexivity.
Qed.

(** A self-closing element with one attribute: the value is decoded. *)
Lemma parse_attribute_element (n k v : string) :
  isName n = true -> isName k = true ->
  allChars (fun c => negb (c =? dquote)%char) v = true ->
  parse ("<" ++ n ++ " " ++ k ++ "=" ++ DQ ++ v ++ DQ ++ "/>") =
  Ok (mkXmlNode n "" [mkXmlAttribute k (decodeEntities v)] []).
Proof.
  intros N K V. unfold parse, parseWith.
  set (s := k ++ "=" ++ DQ ++ v ++ DQ ++ "/>").
  change ("<" ++ n ++ " " ++ s) with (String "<" (n ++ String " " s)).
  cbn [skipWhitespace]. replace (isspace "<") with false by reflexivity.
  rewrite startsWith_cons.
  rewrite (startsWith_name_then "?" " " "" n s N eq_refl eq_refl).
  cbn [bind]. rewrite startsWith_cons.
  rewrite (startsWith_name_then "!" " " "DOCTYPE" n s N eq_refl eq_refl).
  cbn [bind parseNode]. rewrite startsWith_cons, startsWith_nil.
  cbn [negb get snd].
  rewrite (startsWith_name_then "!" " " "--" n s N eq_refl eq_refl).
  rewrite (startsWith_name_then "!" " " "[CDATA[" n s N eq_refl eq_refl).
  rewrite (parseName_app n (String " " s) N eq_refl).
  cbn [skipWhitespace String.length].
  replace (isspace " ") with true by reflexivity.
  replace (skipWhitespace s) with s.
  - pose proof (parseAttributes_one (String.length s) k v "" [] K V) as A.
    change (k ++ "=" ++ DQ ++ v ++ DQ ++ "/>" ++ "") with s in A.
    rewrite A. reflexivity.
  - unfold s. destruct k as [|c k]; [reflexivity|].
    cbn [isName allChars] in K. apply andb_prop in K. destruct K as [C _].
    cbn [append skipWhitespace].
    destruct (isspace c) eqn:S; [|reflexivity].
    exfalso. revert C S. clear.
    destruct c as [[] [] [] [] [] [] [] []]; cbv; congruence.
Qed.

(** C3.  Decoding replaces each of the five named entities by its
    character and copies every other character, an ampersand that starts
    none of the five included, so a text in which none of the five occurs
    is unchanged.  The character content of an element and the value of an
    attribute are decoded this way: the content [a &lt;b&gt; &amp; c] of an
    element is the one text child [a <b> & c]. *)
Theorem decodeEntities_five_entities :
  (forall e c rest, In (e, c) entities ->
     decodeEntities (e ++ rest) = String c (decodeEntities rest)) /\
  (forall c rest, startsEntity (String c rest) = false ->
     decodeEntities (String c rest) = String c (decodeEntities rest)) /\
  (forall text, hasEntity text = false -> decodeEntities text = text) /\
  (forall n x, isName n = true -> plain x = true -> empty x = false ->
     parse ("<" ++ n ++ ">" ++ x ++ "</" ++ n ++ ">") =
     Ok (mkXmlNode n "" [] [textNode (decodeEntities x)])) /\
  (forall n k v, isName n = true -> isName k = true ->
     allChars (fun c => negb (c =? dquote)%char) v = true ->
     parse ("<" ++ n ++ " " ++ k ++ "=" ++ DQ ++ v ++ DQ ++ "/>") =
     Ok (mkXmlNode n "" [mkXmlAttribute k (decodeEntities v)] [])) /\
  decodeEntities "a &lt;b&gt; &amp; c" = "a <b> & c".
Proof.
  repeat split.
  - exact decodeEntities_entity.
  - exact decodeEntities_other.
  - exact decodeEntities_literal.
  - intros n x N X E. rewrite (parse_text_element n x N X).
    unfold texts. now rewrite E.
  - exact parse_attribute_element.
Qed.

(** The element [p] around the text of the example. *)
Lemma decodeEntities_five_entities_witness :
  parse "<p>a &lt;b&gt; &amp; c</p>" =
  Ok (mkXmlNode "p" "" [] [textNode "a <b> & c"]).
Proof.
  exact (proj1 (proj2 (proj2 (proj2 decodeEntities_five_entities)))
           "p" "a &lt;b&gt; &amp; c" eq_refl eq_refl eq_refl).
Defined.

(** The text of the example is no document: it does not start with a
    tag, and no node is returned. *)
Lemma parse_bare_text_fails :
  parse "a &lt;b&gt; &amp; c" = Err ExpectedOpen.
Proof. reflexivity. Qed.

(** C4.  In the content of an element, character data is gathered into
    one pending text, and the pending text is flushed where a child is
    appended: a CDATA section is a text child of its own, after the text
    before it and before the text after it.  A comment is skipped and
    the pending text is kept, so the character data on both sides of a
    comment is one text child. *)
Theorem content_text_boundaries :
  (forall fuel node buf x s, plain x = true ->
     parseContent (String.length x + fuel) node buf (x ++ s) =
     parseContent fuel node (buf ++ x) s) /\
  (forall fuel node buf c s, closedBy "]]>" c = true ->
     parseContent (S fuel) node buf ("<![CDATA[" ++ c ++ "]]>" ++ s) =
     parseContent fuel (pushChild (flushText node buf) (textNode c)) "" s) /\
  (forall fuel node buf c s, closedBy "-->" c = true ->
     parseContent (S fuel) node buf ("<!--" ++ c ++ "-->" ++ s) =
     parseContent fuel node buf s) /\
  (forall n x c y, isName n = true -> plain x = true -> plain y = true ->
     closedBy "]]>" c = true ->
     parse ("<" ++ n ++ ">" ++ x ++ "<![CDATA[" ++ c ++ "]]>" ++ y ++
            "</" ++ n ++ ">") =
     Ok (mkXmlNode n "" [] (texts x ++ [textNode c] ++ texts y)%list)) /\
  (forall n x c y, isName n = true -> plain x = true -> plain y = true ->
     closedBy "-->" c = true ->
     parse ("<" ++ n ++ ">" ++ x ++ "<!--" ++ c ++ "-->" ++ y ++
            "</" ++ n ++ ">") =
     Ok (mkXmlNode n "" [] (texts (x ++ y)))).
Proof.
  repeat split.
  - intros fuel node buf x s X. now apply parseContent_text.
  - intros fuel node buf c s C. now apply parseContent_cdata.
  - intros fuel node buf c s C. now apply parseContent_comment.
  - exact parse_cdata_element.
  - exact parse_comment_element.
Qed.

(** A CDATA section between two texts: three text children. *)
Lemma content_text_boundaries_witness :
  parse "<a>x&amp;<![CDATA[c&amp;]]>y</a>" =
  Ok (mkXmlNode "a" "" [] [textNode "x&"; textNode "c&amp;"; textNode "y"]).
Proof.
  exact (proj1 (proj2 (proj2 (proj2 content_text_boundaries)))
           "a" "x&amp;" "c&amp;" "y" eq_refl eq_refl eq_refl eq_refl).
Defined.

(** A comment between two texts: one text child, not two. *)
Lemma parse_comment_merges_text :
  parse "<a>x<!--c-->y</a>" = Ok (mkXmlNode "a" "" [] [textNode "xy"]).
Proof. reflexivity. Qed.

(** C5.  The content loop ends at the end of input as it does at the
    closing tag: an element that the input ends in is returned as a
    tree, and no error is raised. *)
Theorem parse_unclosed_element_returns_tree :
  parse "<a>x" = Ok (mkXmlNode "a" "" [] [textNode "x"]) /\
  parse "<a>" = Ok (mkXmlNode "a" "" [] []) /\
  parse "<a><b>x</b>" =
    Ok (mkXmlNode "a" "" [] [mkXmlNode "b" "" [] [textNode "x"]]) /\
  parse "<a><!-- x" = Err UnexpectedEnd /\
  parse "<a k='v" = Err UnterminatedValue /\
  parse "<a" = Err ExpectedClose.
Proof. repeat split. Qed.

(** ** Mismatched closing tags *)

Lemma depth_le (ns : list (string * string)) :
  depth ns <= String.length (openTags ns).
Proof.
  induction ns as [|[n t] ns IH]; cbn [depth openTags]; [lia|].
  repeat rewrite length_append. cbn [String.length]. lia.
Qed.

Lemma parseNode_openTags_mismatch (m rest : string) :
  isName m = true -> stopsName rest = true ->
  forall ns n t fuel,
  Forall wellNamed ((n, t) :: ns) ->
  m <> innermost n ns ->
  parseNode (depth ((n, t) :: ns) + fuel)
            (openTags ((n, t) :: ns) ++ "</" ++ m ++ rest) =
  Err (MismatchedClosingTag m (innermost n ns)).
Proof.
  intros M R. induction ns as [|[n' t'] ns IH]; intros n t fuel W D.
  - inversion W as [|? ? [N T] _]; subst. cbn [fst snd] in N, T.
    cbn [depth openTags innermost Nat.add] in *.
    rewrite append_nil_r, !append_assoc.
    rewrite (parseNode_open _ n _ N).
    replace (String.length t + 1 + fuel) with (String.length t + S fuel)
      by lia.
    rewrite (parseContent_text t _ _ _ _ T).
    apply (parseContent_mismatch fuel (mkXmlNode n "" [] []) _ _ m rest);
      [reflexivity | | exact D].
    cbn [append drop]. now apply parseName_app.
  - inversion W as [|? ? [N T] W']; subst. cbn [fst snd] in N, T.
    specialize (IH n' t' fuel W' D).
    inversion W' as [|? ? [N' _] _]; subst. cbn [fst] in N'.
    cbn [depth openTags innermost Nat.add] in *.
    rewrite !append_assoc in *.
    rewrite (parseNode_open _ n _ N).
    replace (String.length t + S (S (String.length t' + S (depth ns))) + fuel)
      with (String.length t + S (S (String.length t' + S (depth ns) + fuel)))
      by lia.
    rewrite (parseContent_text t _ _ _ _ T).
    rewrite (parseContent_child _ _ _ n' _ N').
    rewrite IH. reflexivity.
Qed.

(** X3.  Below any number of open elements, each with character data in front
    of the next tag, a closing tag of another name than the innermost
    one is the error that [parse] raises. *)
Lemma parse_openTags_mismatch (n t : string) (ns : list (string * string))
      (m rest : string) :
  Forall wellNamed ((n, t) :: ns) ->
  isName m = true -> stopsName rest = true ->
  m <> innermost n ns ->
  parse (openTags ((n, t) :: ns) ++ "</" ++ m ++ rest) =
  Err (MismatchedClosingTag m (innermost n ns)).
Proof.
  intros W M R D.
  pose proof (parseNode_openTags_mismatch m rest M R ns n t) as P.
  inversion W as [|? ? [N _] _]; subst. cbn [fst] in N.
  unfold parse, parseWith.
  set (data := openTags ((n, t) :: ns) ++ "</" ++ m ++ rest) in *.
  assert (F : data = "<" ++ n ++ ">" ++
                     (t ++ openTags ns) ++ "</" ++ m ++ rest).
  { unfold data. cbn [openTags]. now rewrite !append_assoc. }
  replace (skipWhitespace data) with data
    by (rewrite F; reflexivity).
  replace (startsWith "<?" data) with false
    by (rewrite F; symmetry;
        apply (startsWith_name "?" "" n _ N eq_refl eq_refl)).
  cbn [bind].
  replace (startsWith "<!DOCTYPE" data) with false
    by (rewrite F; symmetry;
        apply (startsWith_name "!" "DOCTYPE" n _ N eq_refl eq_refl)).
  cbn [bind].
  replace (S (String.length data))
    with (depth ((n, t) :: ns) +
          (S (String.length data) - depth ((n, t) :: ns))).
  - rewrite (P _ W D). reflexivity.
  - pose proof (depth_le ((n, t) :: ns)) as L.
    unfold data. rewrite length_append. lia.
Qed.

(** Two open elements with texts, then a closing tag of a third name. *)
Lemma parse_openTags_mismatch_witness :
  parse "<a>t<b>u</c>" = Err (MismatchedClosingTag "c" "b").
Proof.
  refine (parse_openTags_mismatch "a" "t" [("b", "u")] "c" ">"
                                  _ eq_refl eq_refl _).
  - repeat constructor.
  - discriminate.
Defined.

(** ** The parser always answers *)

Lemma skipWhitespace_le (s : string) :
  String.length (skipWhitespace s) <= String.length s.
Proof.
  induction s as [|c s IH]; cbn [skipWhitespace]; [lia|].
  destruct (isspace c); cbn [String.length] in *; lia.
Qed.

Lemma parseName_le (s n r : string) :
  parseName s = (n, r) -> String.length r <= String.length s.
Proof.
  revert n r. induction s as [|c s IH]; intros n r; cbn [parseName].
  - intros E. inversion E. cbn. lia.
  - destruct (isNameChar c).
    + destruct (parseName s) as [n' r'] eqn:P. intros E. inversion E; subst.
      specialize (IH n' r eq_refl). cbn [String.length]. lia.
    + intros E. inversion E; subst. lia.
Qed.

Lemma readValue_le (quote : ascii) (s v r : string) :
  readValue quote s = (v, r) -> String.length r <= String.length s.
Proof.
  revert v r. induction s as [|c s IH]; intros v r; cbn [readValue].
  - intros E. inversion E. cbn. lia.
  - destruct (c =? quote)%char.
    + intros E. inversion E; subst. lia.
    + destruct (readValue quote s) as [v' r'] eqn:P. intros E.
      inversion E; subst. specialize (IH v' r eq_refl).
      cbn [String.length]. lia.
Qed.

Lemma parseUntil_le (marker s t r : string) :
  parseUntil marker s = Ok (t, r) -> String.length r <= String.length s.
Proof.
  revert t r. induction s as [|c s IH]; intros t r; cbn [parseUntil].
  - destruct (startsWith marker ""); intros E; inversion E. cbn. lia.
  - destruct (startsWith marker (String c s)).
    + intros E. inversion E; subst. lia.
    + destruct (parseUntil marker s) as [[t' r']| |] eqn:P;
        cbn [bind]; intros E; inversion E; subst.
      specialize (IH t' r eq_refl). cbn [String.length]. lia.
Qed.

Lemma parseUntil_answers (marker s : string) :
  parseUntil marker s <> OutOfFuel.
Proof.
  induction s as [|c s IH]; cbn [parseUntil].
  - destruct (startsWith marker ""); discriminate.
  - destruct (startsWith marker (String c s)); [discriminate|].
    destruct (parseUntil marker s) as [[t r]| |]; cbn [bind];
      [discriminate | discriminate | contradiction].
Qed.

Lemma get_le (s : string) (c : ascii) (r : string) :
  get s = (c, r) -> String.length r <= String.length s.
Proof.
  destruct s; cbn [get]; intros E; inversion E; subst; cbn; lia.
Qed.

(** A character that [get] returned and that is not the zero character
    was consumed. *)
Lemma get_consumed (s : string) (c d : ascii) (r : string) :
  get s = (c, r) -> (c =? d)%char = true -> d <> zero ->
  S (String.length r) = String.length s.
Proof.
  destruct s; cbn [get]; intros E Q Z; inversion E; subst.
  - apply Ascii.eqb_eq in Q. congruence.
  - reflexivity.
Qed.

Lemma parseAttributes_fuel (fuel : nat) :
  forall s acc,
  (String.length s <= fuel -> parseAttributes fuel s acc <> OutOfFuel) /\
  (forall a r, parseAttributes fuel s acc = Ok (a, r) ->
               String.length r <= String.length s).
Proof.
  induction fuel as [|fuel IH]; intros s acc.
  - cbn [parseAttributes].
    destruct (eof s || startsWith ">" s || startsWith "/>" s) eqn:E.
    + split; [discriminate|]. intros a r Q. inversion Q; subst. lia.
    + split; [|discriminate]. intros L. destruct s; [discriminate E|].
      cbn [String.length] in L. lia.
  - cbn [parseAttributes].
    destruct (eof s || startsWith ">" s || startsWith "/>" s) eqn:E.
    { split; [discriminate|]. intros a r Q. inversion Q; subst. lia. }
    destruct (parseName s) as [attrName s1] eqn:P1.
    destruct (get (skipWhitespace s1)) as [c s3] eqn:G1.
    destruct (c =? "=")%char eqn:C1; cbn [negb];
      [|split; [discriminate | discriminate]].
    destruct (get (skipWhitespace s3)) as [quote s5] eqn:G2.
    destruct (negb (quote =? dquote)%char && negb (quote =? squote)%char);
      [split; discriminate|].
    destruct (readValue quote s5) as [value s6] eqn:R.
    destruct (get s6) as [c' s7] eqn:G3.
    destruct (negb (c' =? quote)%char); [split; discriminate|].
    pose proof (parseName_le _ _ _ P1).
    pose proof (skipWhitespace_le s1).
    assert (Z : "="%char <> zero) by discriminate.
    pose proof (get_consumed _ _ _ _ G1 C1 Z).
    pose proof (skipWhitespace_le s3).
    pose proof (get_le _ _ _ G2).
    pose proof (readValue_le _ _ _ _ R).
    pose proof (get_le _ _ _ G3).
    pose proof (skipWhitespace_le s7).
    destruct (IH (skipWhitespace s7)
                 (acc ++ [mkXmlAttribute attrName (decodeEntities value)])%list)
      as [A B].
    split.
    + intros L. apply A. lia.
    + intros a r Q. specialize (B a r Q). lia.
Qed.

Ltac raised :=
  split; [intros _; discriminate | intros ? ? Q; discriminate Q].

(** The length of the rest that an answer [Q] holds. *)
Ltac returned Q :=
  match type of Q with
  | Ok (_, ?a) = Ok (_, ?b) =>
      assert (String.length b = String.length a) by congruence
  end.

(** With more fuel than the input is long, [parseNode] answers; what it
    leaves is shorter than what it was given.  The same of the content
    loop, with one more unit of fuel. *)
Lemma parser_fuel (fuel : nat) :
  (forall s,
     (String.length s < fuel -> parseNode fuel s <> OutOfFuel) /\
     (forall n r, parseNode fuel s = Ok (n, r) ->
                  String.length r + 2 <= String.length s)) /\
  (forall node buf s,
     (String.length s + 1 < fuel ->
      parseContent fuel node buf s <> OutOfFuel) /\
     (forall n r, parseContent fuel node buf s = Ok (n, r) ->
                  String.length r <= String.length s)).
Proof.
  induction fuel as [|fuel [IHN IHC]].
  { split; intros; (split; [intros L; lia | intros ? ? Q; discriminate Q]). }
  split.
  - intros s. cbn [parseNode].
    destruct (startsWith "<" s) eqn:E1; cbn [negb]; [|raised].
    destruct s as [|c0 s1]; [discriminate E1|]. cbn [get snd String.length].
    destruct (startsWith "!--" s1) eqn:E2.
    { destruct (parseUntil "-->" (drop 3 s1)) as [[t r]|e|] eqn:U; cbn [bind].
      - pose proof (parseUntil_le _ _ _ _ U).
        pose proof (drop_length 3 s1). pose proof (drop_length 3 r).
        pose proof (skipWhitespace_le (drop 3 r)).
        destruct (IHN (skipWhitespace (drop 3 r))) as [A B]. split.
        + intros L. apply A. lia.
        + intros n r' Q. specialize (B n r' Q). lia.
      - raised.
      - exfalso. exact (parseUntil_answers _ _ U). }
    destruct (startsWith "![CDATA[" s1) eqn:E3.
    { destruct (parseUntil "]]>" (drop 8 s1)) as [[t r]|e|] eqn:U; cbn [bind].
      - pose proof (parseUntil_le _ _ _ _ U).
        pose proof (drop_length 8 s1). pose proof (drop_length 3 r).
        pose proof (startsWith_length _ _ E3) as L3.
        cbn [String.length] in L3.
        split; [discriminate|]. intros n r' Q. returned Q. lia.
      - raised.
      - exfalso. exact (parseUntil_answers _ _ U). }
    destruct (parseName s1) as [nm s2] eqn:P.
    pose proof (parseName_le _ _ _ P).
    pose proof (skipWhitespace_le s2).
    destruct (parseAttributes (String.length s2) (skipWhitespace s2) [])
      as [[attrs s3]|e|] eqn:A; cbn [bind].
    + destruct (parseAttributes_fuel (String.length s2) (skipWhitespace s2) [])
        as [_ AL].
      specialize (AL _ _ A).
      destruct (startsWith "/>" s3) eqn:E4.
      * pose proof (drop_length 2 s3).
        pose proof (startsWith_length _ _ E4) as L4.
        cbn [String.length] in L4.
        split; [discriminate|]. intros n r Q. returned Q. lia.
      * destruct (get s3) as [c s4] eqn:G.
        destruct (c =? ">")%char eqn:C; cbn [negb]; [|raised].
        assert (Z : ">"%char <> zero) by discriminate.
        pose proof (get_consumed _ _ _ _ G C Z).
        destruct (IHC (mkXmlNode nm "" attrs []) "" s4) as [A1 B1]. split.
        -- intros L. apply A1. lia.
        -- intros n r Q. specialize (B1 n r Q). lia.
    + raised.
    + exfalso.
      destruct (parseAttributes_fuel (String.length s2) (skipWhitespace s2) [])
        as [T _].
      now apply T.
  - intros node buf s. cbn [parseContent].
    destruct (eof s) eqn:E0.
    { split; [discriminate|]. intros n r Q. returned Q. lia. }
    destruct (startsWith "</" s) eqn:E1.
    { destruct (parseName (drop 2 s)) as [endName s1] eqn:P.
      destruct (negb (endName =? name node)); [raised|].
      destruct (get (skipWhitespace s1)) as [c s2] eqn:G.
      destruct (negb (c =? ">")%char); [raised|].
      pose proof (parseName_le _ _ _ P). pose proof (drop_length 2 s).
      pose proof (skipWhitespace_le s1). pose proof (get_le _ _ _ G).
      split; [discriminate|]. intros n r Q. returned Q. lia. }
    destruct (startsWith "<![CDATA[" s) eqn:E2.
    { destruct (parseUntil "]]>" (drop 9 s)) as [[t r]|e|] eqn:U; cbn [bind].
      - pose proof (parseUntil_le _ _ _ _ U).
        pose proof (drop_length 9 s). pose proof (drop_length 3 r).
        pose proof (startsWith_length _ _ E2) as L2.
        cbn [String.length] in L2.
        destruct (IHC (pushChild (flushText node buf) (textNode t)) ""
                      (drop 3 r)) as [A B].
        split.
        + intros L. apply A. lia.
        + intros n r' Q. specialize (B n r' Q). lia.
      - raised.
      - exfalso. exact (parseUntil_answers _ _ U). }
    destruct (startsWith "<!--" s) eqn:E3.
    { destruct (parseUntil "-->" (drop 4 s)) as [[t r]|e|] eqn:U; cbn [bind].
      - pose proof (parseUntil_le _ _ _ _ U).
        pose proof (drop_length 4 s). pose proof (drop_length 3 r).
        pose proof (startsWith_length _ _ E3) as L3.
        cbn [String.length] in L3.
        destruct (IHC node buf (drop 3 r)) as [A B].
        split.
        + intros L. apply A. lia.
        + intros n r' Q. specialize (B n r' Q). lia.
      - raised.
      - exfalso. exact (parseUntil_answers _ _ U). }
    destruct (startsWith "<" s) eqn:E4.
    { destruct (IHN s) as [A B].
      destruct (parseNode fuel s) as [[c s1]|e|] eqn:PN; cbn [bind].
      - specialize (B c s1 eq_refl).
        destruct (IHC (pushChild (flushText node buf) c) "" s1) as [A1 B1].
        split.
        + intros L. apply A1. lia.
        + intros n r Q. specialize (B1 n r Q). lia.
      - raised.
      - split; [|intros ? ? Q; discriminate Q].
        intros L. exfalso. apply A; [lia | reflexivity]. }
    destruct s as [|c s1]; [discriminate E0|]. cbn [get String.length].
    destruct (IHC node (buf ++ String c "") s1) as [A B]. split.
    + intros L. apply A. lia.
    + intros n r Q. specialize (B n r Q). lia.
Qed.

(** The fuel that [parse] gives to [parseNode] is never used up. *)
Lemma parse_answers (data : string) : parse data <> OutOfFuel.
Proof.
  unfold parse, parseWith.
  pose proof (skipWhitespace_le data) as L0.
  set (s0 := skipWhitespace data) in *.
  assert (A1 : forall k : string -> result XmlNode,
             (forall s, String.length s <= String.length data ->
                        k s <> OutOfFuel) ->
             (s <- (if startsWith "<?" s0
                    then ' (_, s) <- parseUntil "?>" s0 ;;
                         Ok (skipWhitespace (drop 2 s))
                    else Ok s0) ;; k s) <> OutOfFuel).
  { intros k K. destruct (startsWith "<?" s0).
    - destruct (parseUntil "?>" s0) as [[t r]|e|] eqn:U; cbn [bind].
      + apply K. pose proof (parseUntil_le _ _ _ _ U).
        pose proof (drop_length 2 r).
        pose proof (skipWhitespace_le (drop 2 r)). lia.
      + discriminate.
      + exfalso. exact (parseUntil_answers _ _ U).
    - cbn [bind]. now apply K. }
  apply A1. intros s1 L1.
  destruct (startsWith "<!DOCTYPE" s1).
  - destruct (parseUntil ">" s1) as [[t r]|e|] eqn:U; cbn [bind].
    + pose proof (parseUntil_le _ _ _ _ U).
      destruct (get r) as [c r'] eqn:G. pose proof (get_le _ _ _ G).
      cbn [snd]. pose proof (skipWhitespace_le r').
      destruct (parser_fuel (S (String.length data))) as [PN _].
      destruct (PN (skipWhitespace r')) as [A _].
      destruct (parseNode (S (String.length data)) (skipWhitespace r'))
        as [[root rest]|e|] eqn:Q; cbn [bind]; try discriminate.
      exfalso. apply A; [lia | reflexivity].
    + discriminate.
    + exfalso. exact (parseUntil_answers _ _ U).
  - cbn [bind].
    destruct (parser_fuel (S (String.length data))) as [PN _].
    destruct (PN s1) as [A _].
    destruct (parseNode (S (String.length data)) s1)
      as [[root rest]|e|] eqn:Q; cbn [bind]; try discriminate.
    exfalso. apply A; [lia | reflexivity].
Qed.

(** X1.  [parse] is a total function: on every input it returns a tree or
    raises an error. *)
Theorem parse_total (data : string) :
  (exists root, parse data = Ok root) \/ (exists e, parse data = Err e).
Proof.
  pose proof (parse_answers data) as A.
  destruct (parse data) as [root|e|].
  - left. now exists root.
  - right. now exists e.
  - contradiction.
Qed.

(** ** More fuel changes nothing *)

(** An answer of the parser within [fuel] calls is its answer within any
    larger number of calls. *)
Lemma parser_fuel_mono (k fuel : nat) :
  (forall s, parseNode fuel s <> OutOfFuel ->
             parseNode (fuel + k) s = parseNode fuel s) /\
  (forall node buf s, parseContent fuel node buf s <> OutOfFuel ->
                      parseContent (fuel + k) node buf s =
                      parseContent fuel node buf s).
Proof.
  induction fuel as [|fuel [IHN IHC]].
  { split; intros; exfalso; cbn in *; congruence. }
  split.
  - intros s. cbn [Nat.add parseNode].
    destruct (negb (startsWith "<" s)); [reflexivity|].
    destruct (startsWith "!--" (snd (get s))).
    { destruct (parseUntil "-->" (drop 3 (snd (get s)))) as [[t r]|e|];
        cbn [bind]; [apply IHN | reflexivity | reflexivity]. }
    destruct (startsWith "![CDATA[" (snd (get s))); [reflexivity|].
    destruct (parseName (snd (get s))) as [nm s2].
    destruct (parseAttributes (String.length s2) (skipWhitespace s2) [])
      as [[attrs s3]|e|]; cbn [bind]; [|reflexivity|reflexivity].
    destruct (startsWith "/>" s3); [reflexivity|].
    destruct (get s3) as [c s4].
    destruct (negb (c =? ">")%char); [reflexivity | apply IHC].
  - intros node buf s. cbn [Nat.add parseContent].
    destruct (eof s); [reflexivity|].
    destruct (startsWith "</" s); [reflexivity|].
    destruct (startsWith "<![CDATA[" s).
    { destruct (parseUntil "]]>" (drop 9 s)) as [[t r]|e|];
        cbn [bind]; [apply IHC | reflexivity | reflexivity]. }
    destruct (startsWith "<!--" s).
    { destruct (parseUntil "-->" (drop 4 s)) as [[t r]|e|];
        cbn [bind]; [apply IHC | reflexivity | reflexivity]. }
    destruct (startsWith "<" s).
    { destruct (parseNode fuel s) as [[c s1]|e|] eqn:PN; cbn [bind].
      - intros H. rewrite (IHN s) by (rewrite PN; discriminate).
        rewrite PN. cbn [bind]. now apply IHC.
      - intros _. rewrite (IHN s) by (rewrite PN; discriminate).
        now rewrite PN.
      - intros H. now contradiction H. }
    destruct (get s) as [c s1]. apply IHC.
Qed.

Lemma parseWith_more_fuel (data : string) (fuel : nat) :
  S (String.length data) <= fuel -> parseWith fuel data = parse data.
Proof.
  intros L. pose proof (parse_answers data) as A.
  replace fuel with (S (String.length data) + (fuel - S (String.length data)))
    by lia.
  generalize (fuel - S (String.length data)). intros k.
  unfold parse, parseWith in *.
  destruct (if startsWith "<?" (skipWhitespace data)
            then ' (_, s) <- parseUntil "?>" (skipWhitespace data) ;;
                 Ok (skipWhitespace (drop 2 s))
            else Ok (skipWhitespace data)) as [s1|e|];
    cbn [bind] in *; [|reflexivity|reflexivity].
  destruct (if startsWith "<!DOCTYPE" s1
            then ' (_, s) <- parseUntil ">" s1 ;;
                 Ok (skipWhitespace (snd (get s)))
            else Ok s1) as [s2|e|];
    cbn [bind] in *; [|reflexivity|reflexivity].
  destruct (parser_fuel_mono k (S (String.length data))) as [M _].
  rewrite (M s2); [reflexivity|].
  intros Q. apply A. now rewrite Q.
Qed.

(** The answer of [parse] does not depend on the fuel: any larger fuel
    gives the same tree or the same error. *)
Theorem parse_fuel_independent (data : string) (fuel : nat) :
  S (String.length data) <= fuel -> parseWith fuel data = parse data.
Proof.
  exact (parseWith_more_fuel data fuel).
Qed.

Lemma parse_fuel_independent_witness :
  parseWith 1000 "<a>x<b/></a>" = parse "<a>x<b/></a>".
Proof.
  apply parse_fuel_independent. cbn [String.length]. lia.
Defined.

(** ** Every mismatched closing tag is fatal *)

Lemma parseNode_more_fuel (fuel fuel' : nat) (s : string)
      (x : XmlNode * string) :
  parseNode fuel s = Ok x -> fuel <= fuel' -> parseNode fuel' s = Ok x.
Proof.
  intros P L. destruct (parser_fuel_mono (fuel' - fuel) fuel) as [M _].
  replace fuel' with (fuel + (fuel' - fuel)) by lia.
  rewrite M; [exact P|]. rewrite P. discriminate.
Qed.

Lemma parseWith_skipProlog (fuel : nat) (data : string) :
  parseWith fuel data =
  s <- skipProlog data ;; ' (root, _) <- parseNode fuel s ;; Ok root.
Proof.
  unfold parseWith, skipProlog.
  destruct (if startsWith "<?" (skipWhitespace data)
            then ' (_, s) <- parseUntil "?>" (skipWhitespace data) ;;
                 Ok (skipWhitespace (drop 2 s))
            else Ok (skipWhitespace data)) as [s1|e|];
    cbn [bind]; [|reflexivity|reflexivity].
  destruct (if startsWith "<!DOCTYPE" s1
            then ' (_, s) <- parseUntil ">" s1 ;;
                 Ok (skipWhitespace (snd (get s)))
            else Ok s1) as [s2|e|]; reflexivity.
Qed.

Lemma enters_parseNode (s : string) (node : XmlNode) (s' : string) :
  enters s node s' ->
  exists d, forall fuel,
    parseNode (d + S fuel) s = parseContent fuel node "" s'.
Proof.
  induction 1 as [s nm s2 attrs s3 s4 H1 H2 H3 H4 H5 H6 H7
                 | s t r node s' H1 H2 H3 _ [d IH]].
  - exists 0. intros fuel. cbn [Nat.add parseNode].
    rewrite H1. cbn [negb]. rewrite H2, H3, H4, H5. cbn [bind].
    rewrite H6, H7. reflexivity.
  - exists (S d). intros fuel. cbn [Nat.add parseNode].
    rewrite H1. cbn [negb]. rewrite H2, H3. cbn [bind]. apply IH.
Qed.

Lemma comment_start (s : string) :
  startsWith "<!--" s = true ->
  eof s = false /\ startsWith "</" s = false /\
  startsWith "<![CDATA[" s = false.
Proof.
  destruct s as [|a [|b [|c s]]]; cbn [startsWith]; intros H;
    try discriminate H;
    try (repeat rewrite andb_false_r in H; discriminate H).
  apply andb_prop in H. destruct H as [A H].
  apply andb_prop in H. destruct H as [B H].
  apply andb_prop in H. destruct H as [C _].
  apply Ascii.eqb_eq in A, B, C. subst a b c. repeat split.
Qed.

Lemma cdata_start (s : string) :
  startsWith "<![CDATA[" s = true ->
  eof s = false /\ startsWith "</" s = false.
Proof.
  destruct s as [|a [|b s]]; cbn [startsWith]; intros H;
    try discriminate H;
    try (repeat rewrite andb_false_r in H; discriminate H).
  apply andb_prop in H. destruct H as [A H].
  apply andb_prop in H. destruct H as [B _].
  apply Ascii.eqb_eq in A, B. subst a b. repeat split.
Qed.

Lemma contentStep_parseContent (node : XmlNode) (buf s : string)
      (node' : XmlNode) (buf' s' : string) :
  contentStep node buf s node' buf' s' ->
  exists fuel0, forall fuel, fuel0 <= fuel ->
    parseContent (S fuel) node buf s = parseContent fuel node' buf' s'.
Proof.
  intros [node0 buf0 c s0 C
         | node0 buf0 s0 t r C U
         | node0 buf0 s0 t r C U
         | node0 buf0 s0 fuel0 c r (A1 & A2 & A3 & A4) P].
  - exists 0. intros fuel _. rewrite Ascii.eqb_sym in C.
    cbn [parseContent eof empty startsWith get]. rewrite C. reflexivity.
  - exists 0. intros fuel _. destruct (comment_start _ C) as (E & E1 & E2).
    cbn [parseContent]. rewrite E, E1, E2, C, U. reflexivity.
  - exists 0. intros fuel _. destruct (cdata_start _ C) as (E & E1).
    cbn [parseContent]. rewrite E, E1, C, U. reflexivity.
  - exists fuel0. intros fuel L.
    assert (E : eof s0 = false) by (destruct s0; [discriminate A4|reflexivity]).
    cbn [parseContent]. rewrite E, A1, A2, A3, A4.
    rewrite (parseNode_more_fuel fuel0 fuel s0 (c, r) P L). reflexivity.
Qed.

Lemma meetsMismatch_raises (node : XmlNode) (buf s m o : string) :
  meetsMismatch node buf s m o ->
  exists fuel0, forall fuel, fuel0 <= fuel ->
    parseContent fuel node buf s = Err (MismatchedClosingTag m o).
Proof.
  induction 1 as [node buf s m r C P D
                 | node buf s node' buf' s' m o St _ [f2 IH]
                 | node buf s c s' m o (A1 & A2 & A3 & A4) En _ [f2 IH]].
  - exists 1. intros fuel L. destruct fuel as [|fuel]; [lia|].
    now apply (parseContent_mismatch fuel node buf s m r).
  - destruct (contentStep_parseContent _ _ _ _ _ _ St) as [f1 S1].
    exists (S (Nat.max f1 f2)). intros fuel L.
    destruct fuel as [|fuel]; [lia|].
    rewrite S1 by lia. apply IH. lia.
  - destruct (enters_parseNode _ _ _ En) as [d E].
    exists (S (d + S f2)). intros fuel L.
    destruct fuel as [|fuel]; [lia|].
    assert (E0 : eof s = false) by (destruct s; [discriminate A4|reflexivity]).
    cbn [parseContent]. rewrite E0, A1, A2, A3, A4.
    replace (parseNode fuel s)
      with (@Err (XmlNode * string) (MismatchedClosingTag m o));
      [reflexivity|].
    symmetry. replace fuel with (d + S (fuel - d - 1)) by lia.
    rewrite E. apply IH. lia.
Qed.

(** C6.  A closing tag whose name is not the name of the element that is
    open raises the mismatch error, whatever the children and the pending
    text of that element.  Whenever the parse of a document comes to such
    a closing tag, in the root or in an element below it, after any
    number of children, comments, sections and texts, that error is the
    outcome of the parse: no tree is returned. *)
Theorem parse_mismatched_closing_tag :
  (forall fuel node buf s endName s',
     startsWith "</" s = true ->
     parseName (drop 2 s) = (endName, s') ->
     endName <> name node ->
     parseContent (S fuel) node buf s =
     Err (MismatchedClosingTag endName (name node))) /\
  (forall data s root s' m o,
     skipProlog data = Ok s ->
     enters s root s' ->
     meetsMismatch root "" s' m o ->
     parse data = Err (MismatchedClosingTag m o) /\
     forall tree, parse data <> Ok tree).
Proof.
  split.
  - intros fuel node buf s endName s' C P D.
    now apply (parseContent_mismatch fuel node buf s endName s').
  - intros data s root s' m o Pr En Mi.
    assert (E : parse data = Err (MismatchedClosingTag m o)).
    { destruct (enters_parseNode _ _ _ En) as [d E].
      destruct (meetsMismatch_raises _ _ _ _ _ Mi) as [f2 R].
      rewrite <- (parseWith_more_fuel
                    data (S (String.length data) + (d + S f2))) by lia.
      rewrite parseWith_skipProlog, Pr. cbn [bind].
      replace (S (String.length data) + (d + S f2))
        with (d + S (String.length data + S f2)) by lia.
      rewrite E, R by lia. reflexivity. }
    split; [exact E|]. intros tree. rewrite E. discriminate.
Qed.

(** The document [<a><b></a>]: [b] is open when [a] is closed. *)
Lemma parse_mismatched_closing_tag_witness :
  parse "<a><b></a>" = Err (MismatchedClosingTag "a" "b").
Proof.
  refine (proj1 (proj2 parse_mismatched_closing_tag
                  "<a><b></a>" "<a><b></a>" (mkXmlNode "a" "" [] [])
                  "<b></a>" "a" "b" eq_refl _ _)).
  - apply (enters_element "<a><b></a>" "a" "><b></a>" [] "><b></a>");
      reflexivity.
  - apply (mismatch_below _ _ _ (mkXmlNode "b" "" [] []) "</a>").
    + repeat split.
    + apply (enters_element "<b></a>" "b" "></a>" [] "></a>"); reflexivity.
    + apply (mismatch_here (mkXmlNode "b" "" [] []) "" "</a>" "a" ">");
        [reflexivity | reflexivity | discriminate].
Defined.

(** ** Further properties of the renderer and of the parser *)

(** The three inline markers wrap the text of the descendants. *)
Theorem renderNodeInline_markers (node : XmlNode) :
  (name node = "bold" ->
   renderNodeInline node = "**" ++ nodeText node ++ "**") /\
  (name node = "emphasis" ->
   renderNodeInline node = "*" ++ nodeText node ++ "*") /\
  (name node = "computeroutput" ->
   renderNodeInline node = "`" ++ nodeText node ++ "`").
Proof.
  repeat split; intros E; rewrite renderNodeInline_eq, E; reflexivity.
Qed.

Lemma renderNodeInline_markers_witness :
  renderNodeInline (mkXmlNode "bold" "" [] [textNode "x"]) = "**x**".
Proof.
  exact (proj1 (renderNodeInline_markers
                  (mkXmlNode "bold" "" [] [textNode "x"])) eq_refl).
Defined.

(** A cross reference is a link to an anchor of the same document: to the
    reference id when the node has one, to its own label otherwise. *)
Theorem renderNodeInline_ref (node : XmlNode) :
  name node = "ref" ->
  (forall id, attr "refid" node = Some id ->
     renderNodeInline node =
     "[" ++ nodeText node ++ "](#" ++ attr_value id ++ ")") /\
  (attr "refid" node = None ->
     renderNodeInline node =
     "[" ++ nodeText node ++ "](#" ++ nodeText node ++ ")").
Proof.
  intros E. rewrite renderNodeInline_eq, E. cbn [String.eqb Ascii.eqb Bool.eqb].
  split; [intros id A | intros A]; now rewrite A.
Qed.

Lemma renderNodeInline_ref_witness :
  renderNodeInline (mkXmlNode "ref" "" [] [textNode "Foo"]) = "[Foo](#Foo)".
Proof.
  exact (proj2 (renderNodeInline_ref
                  (mkXmlNode "ref" "" [] [textNode "Foo"]) eq_refl) eq_refl).
Defined.

(** In a list item a paragraph is rendered as any other child is. *)
Lemma renderItem_inline (c : XmlNode) :
  renderItem_of renderNodeInline c = renderNodeInline c.
Proof.
  unfold renderItem_of. destruct (String.eqb_spec (name c) "para") as [E|E];
    [|reflexivity].
  rewrite renderNodeInline_eq, E. reflexivity.
Qed.

(** X4.  Every item of an ordered list is rendered on a line of its own behind
    the marker [1.], whatever its rank; an itemized list has the marker
    [-]. *)
Theorem renderList_markers (node : XmlNode) (bullet : string) :
  renderList node bullet =
  concat_all
    (map (fun item =>
            bullet ++ " " ++
            concat_all (map renderNodeInline (children item)) ++ LF)
         (childrenNamed "listitem" node)) /\
  (name node = "orderedlist" ->
   renderNodeInline node = LF ++ renderList node "1." ++ LF) /\
  (name node = "itemizedlist" ->
   renderNodeInline node = LF ++ renderList node "-" ++ LF).
Proof.
  repeat split.
  - unfold renderList, renderList_of, childrenNamed.
    rewrite forNamed_filter_map. f_equal. apply map_ext. intros item.
    now rewrite (map_ext _ _ renderItem_inline).
  - intros E. rewrite renderNodeInline_eq, E. reflexivity.
  - intros E. rewrite renderNodeInline_eq, E. reflexivity.
Qed.

Lemma renderList_markers_witness :
  renderNodeInline
    (mkXmlNode "orderedlist" "" []
       [ mkXmlNode "listitem" "" [] [mkXmlNode "para" "" [] [textNode "a"]];
         mkXmlNode "listitem" "" [] [mkXmlNode "para" "" [] [textNode "b"]] ]) =
  LF ++ "1. a" ++ LF ++ "1. b" ++ LF ++ LF.
Proof.
  exact (proj1 (proj2 (renderList_markers
    (mkXmlNode "orderedlist" "" []
       [ mkXmlNode "listitem" "" [] [mkXmlNode "para" "" [] [textNode "a"]];
         mkXmlNode "listitem" "" [] [mkXmlNode "para" "" [] [textNode "b"]] ])
    "1.")) eq_refl).
Defined.

(** An element with one attribute and one text child. *)
Theorem parse_attribute_and_child :
  parse ("<includes local=" ++ DQ ++ "no" ++ DQ ++ ">string</includes>") =
  Ok (mkXmlNode "includes" "" [mkXmlAttribute "local" "no"]
                [textNode "string"]).
Proof. reflexivity. Qed.

(** * The parser and the documents it reads *)

(** ** Escaping and decoding *)

Lemma allChars_app (p : ascii -> bool) (a b : string) :
  allChars p (a ++ b) = allChars p a && allChars p b.
Proof.
  induction a as [|c a IH]; cbn [append allChars]; [reflexivity|].
  now rewrite IH, andb_assoc.
Qed.

Lemma decodeEntities_escapeChar (c : ascii) (rest : string) :
  decodeEntities (escapeChar c ++ rest) = String c (decodeEntities rest).
Proof.
  unfold escapeChar.
  destruct (Ascii.eqb_spec c "<"); [subst; reflexivity|].
  destruct (Ascii.eqb_spec c ">"); [subst; reflexivity|].
  destruct (Ascii.eqb_spec c "&") as [|A]; [subst; reflexivity|].
  destruct (Ascii.eqb_spec c dquote); [subst; reflexivity|].
  destruct (Ascii.eqb_spec c squote); [subst; reflexivity|].
  unfold decodeEntities. cbn [append decodeFrom].
  apply Ascii.eqb_neq in A. now rewrite A.
Qed.

Lemma escapeChar_chars (p : ascii -> bool) (c : ascii) :
  p "&"%char = true -> p "l"%char = true -> p "t"%char = true ->
  p ";"%char = true -> p "g"%char = true -> p "a"%char = true ->
  p "m"%char = true -> p "p"%char = true -> p "q"%char = true ->
  p "u"%char = true -> p "o"%char = true -> p "s"%char = true ->
  (c <> "<"%char -> c <> ">"%char -> c <> "&"%char -> c <> dquote ->
   c <> squote -> p c = true) ->
  allChars p (escapeChar c) = true.
Proof.
  intros Pamp Pl Pt Psemi Pg Pa Pm Pp Pq Pu Po Ps Pc. unfold escapeChar.
  destruct (Ascii.eqb_spec c "<");
    [cbn [allChars]; now rewrite Pamp, Pl, Pt, Psemi|].
  destruct (Ascii.eqb_spec c ">");
    [cbn [allChars]; now rewrite Pamp, Pg, Pt, Psemi|].
  destruct (Ascii.eqb_spec c "&");
    [cbn [allChars]; now rewrite Pamp, Pa, Pm, Pp, Psemi|].
  destruct (Ascii.eqb_spec c dquote);
    [cbn [allChars]; now rewrite Pamp, Pq, Pu, Po, Pt, Psemi|].
  destruct (Ascii.eqb_spec c squote);
    [cbn [allChars]; now rewrite Pamp, Pa, Pp, Po, Ps, Psemi|].
  cbn [allChars]. now rewrite Pc.
Qed.

(** An escaped text holds none of [<], [>] and the two quotes. *)
Lemma escape_avoids (d : ascii) (s : string) :
  d = "<"%char \/ d = ">"%char \/ d = dquote \/ d = squote ->
  allChars (fun c => negb (c =? d)%char) (escape s) = true.
Proof.
  intros D. induction s as [|c s IH]; [reflexivity|].
  cbn [escape]. rewrite allChars_app, IH, andb_true_r.
  destruct D as [D|[D|[D|D]]]; subst d;
    (apply escapeChar_chars; try reflexivity;
     intros N1 N2 N3 N4 N5; apply negb_true_iff, Ascii.eqb_neq; assumption).
Qed.

Lemma escape_plain (s : string) : plain (escape s) = true.
Proof.
  apply (escape_avoids "<"). now left.
Qed.

Lemma escape_empty (s : string) : empty (escape s) = empty s.
Proof.
  destruct s as [|c s]; [reflexivity|]. cbn [escape]. unfold escapeChar.
  destruct (c =? "<")%char; [reflexivity|].
  destruct (c =? ">")%char; [reflexivity|].
  destruct (c =? "&")%char; [reflexivity|].
  destruct (c =? dquote)%char; [reflexivity|].
  destruct (c =? squote)%char; reflexivity.
Qed.

Lemma decodeFrom_length (text : string) :
  forall skip,
  String.length (decodeFrom skip text) <= String.length text - skip.
Proof.
  induction text as [|c text IH]; intros skip; [cbn; lia|].
  cbn [decodeFrom String.length]. destruct skip as [|k].
  - pose proof (IH 0). pose proof (IH 3). pose proof (IH 4). pose proof (IH 5).
    destruct (c =? "&")%char; [|cbn [String.length]; lia].
    destruct (startsWith "&lt;" (String c text)) eqn:E1.
    { apply startsWith_length in E1. cbn [String.length] in *. lia. }
    destruct (startsWith "&gt;" (String c text)) eqn:E2.
    { apply startsWith_length in E2. cbn [String.length] in *. lia. }
    destruct (startsWith "&amp;" (String c text)) eqn:E3.
    { apply startsWith_length in E3. cbn [String.length] in *. lia. }
    destruct (startsWith "&quot;" (String c text)) eqn:E4.
    { apply startsWith_length in E4. cbn [String.length] in *. lia. }
    destruct (startsWith "&apos;" (String c text)) eqn:E5.
    { apply startsWith_length in E5. cbn [String.length] in *. lia. }
    cbn [String.length]. lia.
  - pose proof (IH k). lia.
Qed.

Lemma decodeEntities_escaped (s : string) : decodeEntities (escape s) = s.
Proof.
  induction s as [|c s IH]; [reflexivity|].
  cbn [escape]. now rewrite decodeEntities_escapeChar, IH.
Qed.

(** X5.  Decoding undoes escaping, in one pass: the text that comes out of an
    escaped text is the text that went in, also where it holds entities
    of its own.  Decoding never makes a text longer. *)
Theorem decodeEntities_escape :
  (forall s, decodeEntities (escape s) = s) /\
  (forall text,
     String.length (decodeEntities text) <= String.length text).
Proof.
  split; [exact decodeEntities_escaped|].
  intros text. pose proof (decodeFrom_length text 0) as L.
  unfold decodeEntities. lia.
Qed.

(** ** What the scanners return *)

Lemma parseName_run (s n r : string) :
  parseName s = (n, r) ->
  s = n ++ r /\ isName n = true /\ stopsName r = true.
Proof.
  revert n r. induction s as [|c s IH]; intros n r; cbn [parseName].
  - intros E. injection E as <- <-. repeat split.
  - destruct (isNameChar c) eqn:C.
    + destruct (parseName s) as [n' r'] eqn:P. intros E.
      injection E as <- <-. destruct (IH n' r' eq_refl) as (E1 & E2 & E3).
      repeat split.
      * cbn [append]. now rewrite <- E1.
      * cbn [isName allChars]. now rewrite C.
      * exact E3.
    + intros E. injection E as <- <-. repeat split.
      cbn [stopsName]. now rewrite C.
Qed.

(** X6.  [parseName] splits its input into the longest run of name characters
    and the rest. *)
Theorem parseName_splits (s n r : string) :
  parseName s = (n, r) ->
  s = n ++ r /\ isName n = true /\ stopsName r = true.
Proof.
  exact (parseName_run s n r).
Qed.

Lemma parseName_splits_witness :
  parseName "xml:lang='en'" = ("xml:lang", "='en'") /\
  "xml:lang='en'" = "xml:lang" ++ "='en'" /\
  isName "xml:lang" = true /\ stopsName "='en'" = true.
Proof.
  split; [reflexivity|].
  exact (parseName_splits "xml:lang='en'" "xml:lang" "='en'" eq_refl).
Defined.

Lemma startsWith_split (p s : string) :
  startsWith p s = true -> s = p ++ drop (String.length p) s.
Proof.
  revert s. induction p as [|a p IH]; intros s H; [reflexivity|].
  destruct s as [|b s]; [discriminate H|]. cbn [startsWith] in H.
  apply andb_prop in H. destruct H as [A H]. apply Ascii.eqb_eq in A.
  subst b. cbn [String.length drop append]. now rewrite <- (IH s H).
Qed.

Lemma startsWith_before (marker a r : string) :
  startsWith marker r = true ->
  startsWith marker (a ++ r) = startsWith marker (a ++ marker).
Proof.
  intros H. rewrite (startsWith_split _ _ H) at 1.
  rewrite <- append_assoc. apply startsWith_app_long.
  rewrite length_append. lia.
Qed.

Lemma closedBy_drop (marker t : string) :
  closedBy marker t = true ->
  forall k, k < String.length t ->
  startsWith marker (drop k (t ++ marker)) = false.
Proof.
  induction t as [|c t IH]; intros C k L; [cbn in L; lia|].
  cbn [closedBy] in C. apply andb_prop in C. destruct C as [C1 C2].
  apply negb_true_iff in C1. destruct k as [|k]; [exact C1|].
  cbn [append drop]. apply IH; [exact C2|]. cbn [String.length] in L. lia.
Qed.

(** X7.  [parseUntil] splits its input at the first occurrence of the marker:
    the text it returns holds no occurrence that starts in it, and the
    rest starts with the marker.  It fails when, and only when, the marker
    does not occur. *)
Theorem parseUntil_first (marker s : string) :
  (forall t r, parseUntil marker s = Ok (t, r) ->
     s = t ++ r /\ startsWith marker r = true /\ closedBy marker t = true) /\
  (parseUntil marker s = Err UnexpectedEnd <->
     forall k, startsWith marker (drop k s) = false).
Proof.
  split.
  - induction s as [|c s IH]; intros t r; cbn [parseUntil].
    + destruct (startsWith marker "") eqn:E; intros Q; [|discriminate Q].
      injection Q as <- <-. repeat split. exact E.
    + destruct (startsWith marker (String c s)) eqn:E.
      * intros Q. injection Q as <- <-. repeat split. exact E.
      * destruct (parseUntil marker s) as [[t' r']| |] eqn:P; cbn [bind];
          intros Q; try discriminate Q.
        injection Q as <- <-. destruct (IH t' r' eq_refl) as (E1 & E2 & E3).
        repeat split; [cbn [append]; now rewrite <- E1 | exact E2|].
        cbn [closedBy]. rewrite E3, andb_true_r. apply negb_true_iff.
        rewrite <- E.
        change (String c t' ++ marker) with (String c (t' ++ marker)).
        rewrite E1. symmetry.
        apply (startsWith_before marker (String c t') r' E2).
  - split.
    + induction s as [|c s IH]; cbn [parseUntil].
      * destruct (startsWith marker "") eqn:E; intros Q; [discriminate Q|].
        intros [|k]; exact E.
      * destruct (startsWith marker (String c s)) eqn:E;
          intros Q; [discriminate Q|].
        destruct (parseUntil marker s) as [[t' r']|e|] eqn:P; cbn [bind] in Q;
          try discriminate Q.
        injection Q as ->.
        intros [|k]; [exact E | cbn [drop]; now apply IH].
    + apply parseUntil_end.
Qed.

Lemma parseUntil_first_witness :
  parseUntil "-->" "a->b-->c-->" = Ok ("a->b", "-->c-->") /\
  closedBy "-->" "a->b" = true.
Proof.
  split; [reflexivity|].
  exact (proj2 (proj2 (proj1 (parseUntil_first "-->" "a->b-->c-->")
                         "a->b" "-->c-->" eq_refl))).
Defined.

(** ** The shape of the trees that are parsed *)

Lemma isName_not_text (n : string) : isName n = true -> (n =? "#text") = false.
Proof.
  intros N. destruct (String.eqb_spec n "#text") as [E|E]; [|reflexivity].
  subst n. discriminate N.
Qed.

Lemma forallb_snoc {A : Type} (p : A -> bool) (l : list A) (x : A) :
  forallb p (l ++ [x])%list = forallb p l && p x.
Proof.
  rewrite forallb_app. cbn [forallb]. now rewrite andb_true_r.
Qed.

Lemma parseAttributes_names (fuel : nat) :
  forall s acc a r,
  parseAttributes fuel s acc = Ok (a, r) ->
  forallb (fun x => isName (attr_name x)) acc = true ->
  forallb (fun x => isName (attr_name x)) a = true.
Proof.
  induction fuel as [|fuel IH]; intros s acc a r; cbn [parseAttributes].
  - destruct (eof s || startsWith ">" s || startsWith "/>" s);
      intros Q; [|discriminate Q]. now injection Q as <- <-.
  - destruct (eof s || startsWith ">" s || startsWith "/>" s).
    { intros Q. now injection Q as <- <-. }
    destruct (parseName s) as [attrName s1] eqn:P1.
    destruct (get (skipWhitespace s1)) as [c s3].
    destruct (negb (c =? "=")%char); [intros Q; discriminate Q|].
    destruct (get (skipWhitespace s3)) as [quote s5].
    destruct (negb (quote =? dquote)%char && negb (quote =? squote)%char);
      [intros Q; discriminate Q|].
    destruct (readValue quote s5) as [value s6].
    destruct (get s6) as [c' s7].
    destruct (negb (c' =? quote)%char); [intros Q; discriminate Q|].
    intros Q F. apply (IH _ _ _ _ Q).
    rewrite forallb_snoc, F. cbn [attr_name andb].
    now destruct (parseName_run _ _ _ P1) as (_ & N & _).
Qed.

Lemma shaped_element (n : string) (attrs : list XmlAttribute)
      (cs : list XmlNode) :
  isName n = true ->
  shaped (mkXmlNode n "" attrs cs) =
  forallb (fun a => isName (attr_name a)) attrs && forallb shaped cs.
Proof.
  intros N. cbn [shaped name text attributes children empty].
  unfold isText. cbn [name]. now rewrite (isName_not_text n N), N.
Qed.

Lemma shaped_pushChild (node c : XmlNode) :
  isText node = false -> shaped node = true -> shaped c = true ->
  shaped (pushChild node c) = true.
Proof.
  destruct node as [n t a cs]. unfold pushChild. intros T S C.
  cbn [shaped name text attributes children] in *.
  unfold isText in *. cbn [name] in *. rewrite T in *.
  rewrite forallb_snoc, C, andb_true_r.
  apply andb_prop in S. destruct S as [S1 S2]. now rewrite S1, S2.
Qed.

Lemma shaped_flushText (node : XmlNode) (buf : string) :
  isText node = false -> shaped node = true ->
  shaped (flushText node buf) = true.
Proof.
  intros T S. unfold flushText. destruct (negb (empty buf)); [|exact S].
  now apply shaped_pushChild.
Qed.

Lemma isText_flushText (node : XmlNode) (buf : string) :
  isText (flushText node buf) = isText node.
Proof.
  unfold flushText. now destruct (negb (empty buf)).
Qed.

Lemma parser_shaped (fuel : nat) :
  (forall s n r, parseNode fuel s = Ok (n, r) -> shaped n = true) /\
  (forall node buf s n r,
     parseContent fuel node buf s = Ok (n, r) ->
     isText node = false -> shaped node = true -> shaped n = true).
Proof.
  induction fuel as [|fuel [IHN IHC]].
  { split; intros; discriminate. }
  split.
  - intros s n r. cbn [parseNode].
    destruct (negb (startsWith "<" s)); [intros Q; discriminate Q|].
    destruct (startsWith "!--" (snd (get s))).
    { destruct (parseUntil "-->" (drop 3 (snd (get s)))) as [[t u]|e|];
        cbn [bind]; intros Q; try discriminate Q. exact (IHN _ _ _ Q). }
    destruct (startsWith "![CDATA[" (snd (get s))).
    { destruct (parseUntil "]]>" (drop 8 (snd (get s)))) as [[t u]|e|];
        cbn [bind]; intros Q; try discriminate Q.
      assert (E : n = textNode t) by congruence. now subst n. }
    destruct (parseName (snd (get s))) as [nm s2] eqn:P.
    destruct (parseName_run _ _ _ P) as (_ & N & _).
    destruct (parseAttributes (String.length s2) (skipWhitespace s2) [])
      as [[attrs s3]|e|] eqn:A; cbn [bind]; try (intros Q; discriminate Q).
    pose proof (parseAttributes_names _ _ _ _ _ A eq_refl) as F.
    assert (S0 : shaped (mkXmlNode nm "" attrs []) = true).
    { rewrite (shaped_element nm attrs [] N), F. reflexivity. }
    destruct (startsWith "/>" s3).
    { intros Q. assert (E : n = mkXmlNode nm "" attrs []) by congruence.
      now subst n. }
    destruct (get s3) as [c s4].
    destruct (negb (c =? ">")%char); [intros Q; discriminate Q|].
    intros Q. apply (IHC _ _ _ _ _ Q); [|exact S0].
    exact (isName_not_text nm N).
  - intros node buf s n r. cbn [parseContent].
    destruct (eof s).
    { intros Q T S. assert (E : n = flushText node buf) by congruence.
      subst n. now apply shaped_flushText. }
    destruct (startsWith "</" s).
    { destruct (parseName (drop 2 s)) as [endName s1].
      destruct (negb (endName =? name node)); [intros Q; discriminate Q|].
      destruct (get (skipWhitespace s1)) as [c s2].
      destruct (negb (c =? ">")%char); [intros Q; discriminate Q|].
      intros Q T S. assert (E : n = flushText node buf) by congruence.
      subst n. now apply shaped_flushText. }
    destruct (startsWith "<![CDATA[" s).
    { destruct (parseUntil "]]>" (drop 9 s)) as [[t u]|e|]; cbn [bind];
        intros Q; try discriminate Q. intros T S.
      apply (IHC _ _ _ _ _ Q).
      - unfold pushChild, isText. cbn [name].
        now rewrite <- (isText_flushText node buf) in T.
      - apply shaped_pushChild; [now rewrite isText_flushText | |reflexivity].
        now apply shaped_flushText. }
    destruct (startsWith "<!--" s).
    { destruct (parseUntil "-->" (drop 4 s)) as [[t u]|e|]; cbn [bind];
        intros Q; try discriminate Q. intros T S.
      exact (IHC _ _ _ _ _ Q T S). }
    destruct (startsWith "<" s).
    { destruct (parseNode fuel s) as [[c s1]|e|] eqn:PN; cbn [bind];
        intros Q; try discriminate Q. intros T S.
      apply (IHC _ _ _ _ _ Q).
      - unfold pushChild, isText. cbn [name].
        now rewrite <- (isText_flushText node buf) in T.
      - apply shaped_pushChild; [now rewrite isText_flushText | |].
        + now apply shaped_flushText.
        + exact (IHN _ _ _ PN). }
    destruct (get s) as [c s1]. intros Q T S. exact (IHC _ _ _ _ _ Q T S).
Qed.

(** X8.  Every tree that [parse] returns has the shape of the data model: its
    text nodes have no attribute and no child, its elements have no text of
    their own, and every element name and attribute name is made of name
    characters only. *)
Theorem parse_shaped (data : string) (root : XmlNode) :
  parse data = Ok root -> shaped root = true.
Proof.
  unfold parse. rewrite parseWith_skipProlog.
  destruct (skipProlog data) as [s|e|]; cbn [bind]; try discriminate.
  destruct (parseNode (S (String.length data)) s) as [[n r]|e|] eqn:P;
    cbn [bind]; try discriminate.
  intros Q. assert (E : root = n) by congruence. subst root.
  destruct (parser_shaped (S (String.length data))) as [PN _].
  exact (PN _ _ _ P).
Qed.

Lemma parse_shaped_witness :
  parse "<a k='v'>x<![CDATA[y]]><b/></a>" =
    Ok (mkXmlNode "a" "" [mkXmlAttribute "k" "v"]
          [textNode "x"; textNode "y"; mkXmlNode "b" "" [] []]) /\
  shaped (mkXmlNode "a" "" [mkXmlAttribute "k" "v"]
            [textNode "x"; textNode "y"; mkXmlNode "b" "" [] []]) = true.
Proof.
  split; [reflexivity|].
  exact (parse_shaped "<a k='v'>x<![CDATA[y]]><b/></a>" _ eq_refl).
Defined.

(** ** Printed trees are parsed back *)

(** Induction over a tree, with the property known of every child. *)
Lemma XmlNode_tree_ind (P : XmlNode -> Prop) :
  (forall n t a cs, Forall P cs -> P (mkXmlNode n t a cs)) ->
  forall node, P node.
Proof.
  intros step. fix IH 1. intros [n t a cs]. apply step.
  induction cs as [|c cs IHcs]; constructor; [apply IH | exact IHcs].
Qed.

Lemma isNameChar_not_space (c : ascii) :
  isNameChar c = true -> isspace c = false.
Proof.
  destruct c as [[] [] [] [] [] [] [] []]; cbv; congruence.
Qed.

Lemma skipWhitespace_name (n : string) (e : ascii) (s : string) :
  isName n = true -> isspace e = false ->
  skipWhitespace (n ++ String e s) = n ++ String e s.
Proof.
  intros N E. destruct n as [|c n]; cbn [append skipWhitespace].
  - now rewrite E.
  - cbn [isName allChars] in N. apply andb_prop in N. destruct N as [C _].
    now rewrite (isNameChar_not_space c C).
Qed.

(** What follows the name in a printed opening tag starts with a blank or
    with the end of the tag. *)
Lemma printAttrs_head (attrs : list XmlAttribute) (tail : string) :
  exists e s,
    concat_all (map printAttr attrs) ++ ">" ++ tail = String e s /\
    (e = " "%char \/ e = ">"%char).
Proof.
  destruct attrs as [|a attrs].
  - exists ">"%char, tail. split; [reflexivity | now right].
  - eexists " "%char, _. split; [reflexivity | now left].
Qed.

Lemma printAttrs_length (attrs : list XmlAttribute) (tail : string) :
  length attrs <=
  String.length (concat_all (map printAttr attrs) ++ tail).
Proof.
  rewrite length_append.
  induction attrs as [|a attrs IH]; cbn [length map concat_all]; [lia|].
  rewrite length_append. unfold printAttr at 1.
  cbn [append String.length]. lia.
Qed.

Lemma printAttr_app (k v tail : string) :
  printAttr (mkXmlAttribute k v) ++ tail =
  String " " (k ++ String "=" (String dquote
                                 (escape v ++ String dquote tail))).
Proof.
  unfold printAttr, DQ. cbn [attr_name attr_value append].
  rewrite append_assoc. cbn [append]. now rewrite append_assoc.
Qed.

Lemma parseAttributes_print (attrs : list XmlAttribute) :
  forall acc fuel tail,
  length attrs <= fuel ->
  forallb (fun a => isName (attr_name a)) attrs = true ->
  parseAttributes fuel
    (skipWhitespace (concat_all (map printAttr attrs) ++ ">" ++ tail)) acc =
  Ok ((acc ++ attrs)%list, ">" ++ tail).
Proof.
  induction attrs as [|[k v] attrs IH]; intros acc fuel tail L F.
  - cbn [map concat_all append]. rewrite app_nil_r.
    replace (skipWhitespace (String ">" tail)) with (String ">" tail)
      by reflexivity.
    now rewrite parseAttributes_done by reflexivity.
  - cbn [forallb attr_name] in F. apply andb_prop in F. destruct F as [K F].
    destruct fuel as [|fuel]; [cbn [length] in L; lia|].
    cbn [length] in L.
    cbn [map concat_all].
    set (s7 := concat_all (map printAttr attrs) ++ ">" ++ tail).
    rewrite append_assoc. fold s7. rewrite (printAttr_app k v s7).
    cbn [skipWhitespace]. replace (isspace " ") with true by reflexivity.
    rewrite (skipWhitespace_name k "=" _ K eq_refl).
    cbn [parseAttributes].
    replace (eof _ || startsWith ">" _ || startsWith "/>" _) with false.
    + rewrite (parseName_app k (String "=" _) K eq_refl).
      cbn [skipWhitespace]. replace (isspace "=") with false by reflexivity.
      cbn [get]. replace (negb ("=" =? "=")%char) with false by reflexivity.
      cbn [skipWhitespace]. replace (isspace dquote) with false by reflexivity.
      cbn [get]. rewrite Ascii.eqb_refl. cbn [negb andb].
      rewrite (readValue_app dquote (escape v) s7)
        by (apply escape_avoids; tauto).
      cbn [get]. rewrite Ascii.eqb_refl. cbn [negb].
      unfold s7. rewrite (IH _ fuel tail) by (lia || exact F).
      rewrite (decodeEntities_escaped v), <- app_assoc. reflexivity.
    + symmetry.
      rewrite (startsWith_name_then ">" "=" "" k _ K eq_refl eq_refl).
      rewrite (startsWith_name_then "/" "=" ">" k _ K eq_refl eq_refl).
      destruct k; reflexivity.
Qed.

(** The opening tag of a printed element: the parser enters the content
    with the name and the attributes of the element. *)
Lemma parseNode_print_open (fuel : nat) (n : string)
      (attrs : list XmlAttribute) (tail : string) :
  isName n = true ->
  forallb (fun a => isName (attr_name a)) attrs = true ->
  parseNode (S fuel)
    ("<" ++ n ++ concat_all (map printAttr attrs) ++ ">" ++ tail) =
  parseContent fuel (mkXmlNode n "" attrs []) "" tail.
Proof.
  intros N F.
  destruct (printAttrs_head attrs tail) as (e & s & E & Ee).
  assert (Ne : isNameChar e = false) by (destruct Ee; subst e; reflexivity).
  assert (B : ("!" =? e)%char = false) by (destruct Ee; subst e; reflexivity).
  change ("<" ++ n ++ concat_all (map printAttr attrs) ++ ">" ++ tail)
    with (String "<" (n ++ concat_all (map printAttr attrs) ++ ">" ++ tail)).
  cbn [parseNode]. rewrite startsWith_cons, startsWith_nil.
  cbn [negb get snd]. rewrite E.
  rewrite (startsWith_name_then "!" e "--" n s N eq_refl B).
  rewrite (startsWith_name_then "!" e "[CDATA[" n s N eq_refl B).
  rewrite (parseName_app n (String e s) N)
    by (cbn [stopsName]; now rewrite Ne).
  rewrite <- E.
  rewrite (parseAttributes_print attrs [] _ tail (printAttrs_length _ _) F).
  cbn [bind app]. reflexivity.
Qed.

(** A printed element, in the content of its parent, is the tag of a
    child. *)
Lemma atChild_print (n : string) (attrs : list XmlAttribute) (tail : string) :
  isName n = true ->
  atChild ("<" ++ n ++ concat_all (map printAttr attrs) ++ ">" ++ tail).
Proof.
  intros N. destruct (printAttrs_head attrs tail) as (e & s & E & Ee).
  change ("<" ++ n ++ concat_all (map printAttr attrs) ++ ">" ++ tail)
    with (String "<" (n ++ concat_all (map printAttr attrs) ++ ">" ++ tail)).
  rewrite E. unfold atChild. rewrite !startsWith_cons, startsWith_nil.
  repeat split.
  - apply (startsWith_name_then "/" e "" n s N eq_refl).
    destruct Ee; subst e; reflexivity.
  - apply (startsWith_name_then "!" e "[CDATA[" n s N eq_refl).
    destruct Ee; subst e; reflexivity.
  - apply (startsWith_name_then "!" e "--" n s N eq_refl).
    destruct Ee; subst e; reflexivity.
Qed.

(** A text node of the shape above is the node that a flush makes of its
    escaped text. *)
Lemma text_child (c : XmlNode) :
  isText c = true -> shaped c = true -> empty (text c) = false ->
  texts (escape (text c)) = [c] /\ printNode c = escape (text c).
Proof.
  destruct c as [n t a cs]. unfold isText. cbn [name]. intros T S E.
  cbn [shaped attributes children] in S. unfold isText in S. cbn [name] in S.
  rewrite T in S. apply String.eqb_eq in T. subst n.
  destruct a; [|discriminate S]. destruct cs; [|discriminate S].
  cbn [text] in *. split.
  - unfold texts. rewrite escape_empty, E. cbn [negb].
    now rewrite (decodeEntities_escaped t).
  - reflexivity.
Qed.

Lemma element_child (c : XmlNode) :
  isText c = false -> shaped c = true ->
  isName (name c) = true /\
  forallb (fun a => isName (attr_name a)) (attributes c) = true /\
  printNode c =
  "<" ++ name c ++ concat_all (map printAttr (attributes c)) ++ ">" ++
  concat_all (map printNode (children c)) ++ "</" ++ name c ++ ">".
Proof.
  destruct c as [n t a cs]. intros T S.
  cbn [shaped printNode name text attributes children] in *.
  rewrite T in *.
  apply andb_prop in S. destruct S as [S _].
  apply andb_prop in S. destruct S as [S F].
  apply andb_prop in S. destruct S as [N _]. now repeat split.
Qed.

(** The content of a printed element: the children are appended to the
    node under construction in their order, after the pending text. *)
Lemma parseContent_print (n : string) (cs : list XmlNode) :
  isName n = true ->
  Forall (fun c => isText c = false ->
            forall rest, exists fuel0, forall fuel, fuel0 <= fuel ->
              parseNode fuel (printNode c ++ rest) = Ok (c, rest)) cs ->
  forallb shaped cs = true -> textsApart cs = true ->
  forall node buf rest,
  name node = n ->
  (empty buf = false ->
   match cs with c :: _ => isText c = false | [] => True end) ->
  exists fuel0, forall fuel, fuel0 <= fuel ->
    parseContent fuel node buf
      (concat_all (map printNode cs) ++ "</" ++ n ++ ">" ++ rest) =
    Ok (mkXmlNode n (text node) (attributes node)
                  (children node ++ texts buf ++ cs)%list, rest).
Proof.
  intros N. induction cs as [|c cs IH]; intros P Sh A node buf rest E B.
  - exists 1. intros fuel L. destruct fuel as [|fuel]; [lia|].
    subst n.
    replace (concat_all (map printNode []) ++
             "</" ++ name node ++ ">" ++ rest)
      with ("</" ++ name node ++ ">" ++ rest) by reflexivity.
    rewrite (parseContent_close fuel node buf rest N).
    now rewrite flushText_children, app_nil_r.
  - inversion P as [|? ? Pc Pcs]; subst.
    cbn [forallb] in Sh. apply andb_prop in Sh. destruct Sh as [Sc Scs].
    cbn [textsApart] in A. apply andb_prop in A. destruct A as [A Acs].
    apply andb_prop in A. destruct A as [A1 A2].
    cbn [map concat_all]. rewrite append_assoc.
    set (tail := concat_all (map printNode cs) ++
                 "</" ++ name node ++ ">" ++ rest) in *.
    destruct (isText c) eqn:T.
    + (* a text child: nothing is pending *)
      cbn [andb] in A1. apply negb_true_iff in A1.
      destruct (text_child c T Sc A1) as [Tx Pr].
      assert (B0 : buf = "").
      { destruct buf; [reflexivity|]. now specialize (B eq_refl). }
      subst buf.
      destruct (IH Pcs Scs Acs node (escape (text c)) rest eq_refl)
        as [f0 R].
      { intros _. destruct cs as [|b cs]; [exact I|].
        cbn [andb] in A2. now apply negb_true_iff in A2. }
      exists (String.length (escape (text c)) + f0). intros fuel L.
      replace fuel
        with (String.length (escape (text c)) +
              (fuel - String.length (escape (text c)))) by lia.
      rewrite Pr.
      rewrite (parseContent_text _ _ _ _ _ (escape_plain (text c))).
      cbn [append]. rewrite R by lia. rewrite Tx. reflexivity.
    + (* an element child: the pending text is flushed *)
      destruct (element_child c T Sc) as (Nc & Fc & Pr).
      destruct (Pc eq_refl tail) as [f1 R1].
      destruct (IH Pcs Scs Acs (pushChild (flushText node buf) c) "" rest)
        as [f2 R2].
      { unfold pushChild. cbn [name]. now rewrite flushText_children. }
      { intros D. discriminate D. }
      exists (S (Nat.max f1 f2)). intros fuel L.
      destruct fuel as [|fuel]; [lia|].
      assert (C : atChild (printNode c ++ tail)).
      { rewrite Pr, !append_assoc. apply (atChild_print _ _ _ Nc). }
      destruct C as (C1 & C2 & C3 & C4).
      assert (E0 : eof (printNode c ++ tail) = false).
      { destruct (printNode c ++ tail); [discriminate C4 | reflexivity]. }
      cbn [parseContent]. rewrite E0, C1, C2, C3, C4.
      rewrite R1 by lia. cbn [bind]. unfold tail in R2. rewrite R2 by lia.
      unfold pushChild. rewrite flushText_children.
      cbn [name text attributes children app].
      now rewrite <- !app_assoc.
Qed.

Lemma parseNode_print (node : XmlNode) :
  shaped node = true -> canonical node = true -> isText node = false ->
  forall rest, exists fuel0, forall fuel, fuel0 <= fuel ->
    parseNode fuel (printNode node ++ rest) = Ok (node, rest).
Proof.
  induction node as [n t a cs IH] using XmlNode_tree_ind.
  intros S C T rest.
  destruct (element_child _ T S) as (N & F & Pr).
  cbn [name attributes children] in N, F, Pr.
  cbn [shaped name text attributes children] in S. rewrite T in S.
  apply andb_prop in S. destruct S as [S Scs].
  apply andb_prop in S. destruct S as [S _].
  apply andb_prop in S. destruct S as [_ Et].
  destruct t; [|discriminate Et].
  cbn [canonical children] in C. apply andb_prop in C. destruct C as [A Ccs].
  assert (P : Forall (fun c => isText c = false ->
                forall rest, exists fuel0, forall fuel, fuel0 <= fuel ->
                  parseNode fuel (printNode c ++ rest) = Ok (c, rest)) cs).
  { rewrite forallb_forall in Scs, Ccs. rewrite Forall_forall in *.
    intros c I Tc. now apply IH; [| apply Scs | apply Ccs |]. }
  destruct (parseContent_print n cs N P Scs A (mkXmlNode n "" a []) "" rest
              eq_refl) as [f0 R].
  { intros D. discriminate D. }
  exists (S f0). intros fuel L. destruct fuel as [|fuel]; [lia|].
  rewrite Pr, !append_assoc.
  rewrite (parseNode_print_open fuel n a _ N F).
  rewrite <- !append_assoc, append_assoc.
  cbn [name] in R. rewrite <- !append_assoc in R.
  rewrite append_assoc in R. rewrite R by lia. reflexivity.
Qed.

Lemma skipProlog_print (node : XmlNode) (rest : string) :
  shaped node = true -> isText node = false ->
  skipProlog (printNode node ++ rest) = Ok (printNode node ++ rest).
Proof.
  intros Sh T. destruct (element_child _ T Sh) as (N & _ & Pr).
  rewrite Pr, !append_assoc.
  destruct (printAttrs_head
              (attributes node)
              (concat_all (map printNode (children node)) ++
               "</" ++ name node ++ ">" ++ rest)) as (e & s & E & Ee).
  change ("<" ++ name node ++ concat_all (map printAttr (attributes node)) ++
          ">" ++ concat_all (map printNode (children node)) ++
          "</" ++ name node ++ ">" ++ rest)
    with (String "<" (name node ++
            concat_all (map printAttr (attributes node)) ++ ">" ++
            concat_all (map printNode (children node)) ++
            "</" ++ name node ++ ">" ++ rest)).
  rewrite E. unfold skipProlog. cbn [skipWhitespace].
  replace (isspace "<") with false by reflexivity.
  rewrite startsWith_cons.
  rewrite (startsWith_name_then "?" e "" (name node) s N eq_refl)
    by (destruct Ee; subst e; reflexivity).
  cbn [bind]. rewrite startsWith_cons.
  rewrite (startsWith_name_then "!" e "DOCTYPE" (name node) s N eq_refl)
    by (destruct Ee; subst e; reflexivity).
  reflexivity.
Qed.

Lemma parse_printed (node : XmlNode) (rest : string) :
  shaped node = true -> canonical node = true -> isText node = false ->
  parse (printNode node ++ rest) = Ok node.
Proof.
  intros Sh C T.
  destruct (parseNode_print node Sh C T rest) as [f0 R].
  set (data := printNode node ++ rest) in *.
  rewrite <- (parseWith_more_fuel data (Nat.max f0 (S (String.length data))))
    by lia.
  rewrite parseWith_skipProlog. unfold data.
  rewrite (skipProlog_print node rest Sh T). cbn [bind].
  fold data. rewrite R by lia. reflexivity.
Qed.

(** X9.  Printing, then parsing.  A tree of the shape of the data model, with
    no empty text node and no two text nodes in a row, whose root is an
    element, is what [parse] returns on its document text: the names, the
    attributes in their order with their values, the children in their
    order and the texts are all found again.  What follows the root in
    the input is not read. *)
Theorem parse_printNode (node : XmlNode) (rest : string) :
  shaped node = true -> canonical node = true -> isText node = false ->
  parse (printNode node ++ rest) = Ok node.
Proof.
  exact (parse_printed node rest).
Qed.

(** An element with an attribute and a text that need escaping, around a
    child between two texts. *)
Lemma parse_printNode_witness :
  parse (printNode sampleTree ++ " trailing") = Ok sampleTree.
Proof.
  apply parse_printNode; reflexivity.
Defined.

(** X11.  The text of a paragraph reaches the output as the document means
    it: the parser decodes its entities and the renderer writes the
    characters as they are, none of them escaped for MDX. *)
Theorem parse_render_text (t rest : string) :
  empty t = false ->
  exists root,
    parse ("<para>" ++ escape t ++ "</para>" ++ rest) = Ok root /\
    renderNodeInline root = t /\
    renderDescriptionChild root = t ++ LF ++ LF.
Proof.
  intros E. exists (mkXmlNode "para" "" [] [textNode t]). split.
  - replace ("<para>" ++ escape t ++ "</para>" ++ rest)
      with (printNode (mkXmlNode "para" "" [] [textNode t]) ++ rest).
    + apply parse_printed; cbn; now rewrite ?E.
    + cbn. now rewrite append_nil_r, append_assoc.
  - split; cbn; now rewrite ?append_nil_r.
Qed.

Lemma parse_render_text_witness :
  exists root,
    parse ("<para>" ++ "a &lt; b &amp;&amp; {c}" ++ "</para>" ++ "") = Ok root /\
    renderNodeInline root = "a < b && {c}" /\
    renderDescriptionChild root = "a < b && {c}" ++ LF ++ LF.
Proof.
  exact (parse_render_text "a < b && {c}" "" eq_refl).
Defined.

(** * The configuration loader *)

(** ** Numbers *)

Lemma digit_digitChar (d : nat) :
  d < 10 -> digit (digitChar d) = Some (Z.of_nat d).
Proof.
  intros L. do 10 (destruct d as [|d]; [reflexivity|]). exfalso. lia.
Qed.

Lemma readDigits_digits (ds : list nat) :
  forall acc rest,
  Forall (fun d => d < 10) ds -> stopsDigits rest = true ->
  readDigits acc (digitsString ds ++ rest) = digitsValue acc ds.
Proof.
  induction ds as [|d ds IH]; intros acc rest F R.
  - cbn [digitsString append digitsValue]. destruct rest as [|c rest];
      [reflexivity|]. cbn [stopsDigits] in R. cbn [readDigits].
    now destruct (digit c).
  - inversion F as [|? ? D F']; subst.
    cbn [digitsString append readDigits digitsValue].
    rewrite (digit_digitChar d D). now apply IH.
Qed.

Lemma skipWhitespace_app (ws s : string) :
  allChars isspace ws = true ->
  skipWhitespace (ws ++ s) = skipWhitespace s.
Proof.
  induction ws as [|c ws IH]; intros W; [reflexivity|].
  cbn [allChars] in W. apply andb_prop in W. destruct W as [C W].
  cbn [append skipWhitespace]. rewrite C. now apply IH.
Qed.

Lemma digitChar_plain (d : nat) :
  d < 10 ->
  isspace (digitChar d) = false /\ (digitChar d =? "-")%char = false /\
  (digitChar d =? "+")%char = false.
Proof.
  intros L. do 10 (destruct d as [|d]; [repeat split|]). exfalso. lia.
Qed.

(** [stoi] reads a decimal number: after any white space and an optional
    sign, a row of at least one digit gives the number it writes, whatever
    follows the digits, when that number is an [int]; it throws
    [out_of_range] otherwise.  It never returns a number that is no
    [int]. *)
Theorem stoi_decimal :
  (forall ws sg d ds rest,
     allChars isspace ws = true ->
     Forall (fun d => d < 10) (d :: ds) ->
     stopsDigits rest = true ->
     stoi (ws ++ signString sg ++ digitsString (d :: ds) ++ rest) =
     if ((Int.min_int <=? signed sg (digitsValue 0 (d :: ds))) &&
         (signed sg (digitsValue 0 (d :: ds)) <=? Int.max_int))%Z
     then Done (signed sg (digitsValue 0 (d :: ds)))
     else Thrown StoiOutOfRange) /\
  (forall s n, stoi s = Done n -> Int.in_range n).
Proof.
  split.
  - intros ws sg d ds rest W F R.
    inversion F as [|? ? D _]; subst.
    destruct (digitChar_plain d D) as (Dsp & Dm & Dp).
    unfold stoi. rewrite (skipWhitespace_app ws _ W).
    pose proof (readDigits_digits (d :: ds) 0 rest F R) as V.
    destruct sg; cbn [signString append digitsString skipWhitespace signed]
      in *.
    + rewrite Dsp, Dm, Dp. rewrite (digit_digitChar d D).
      cbn [digitsString append] in V. now rewrite V.
    + replace (isspace "+") with false by reflexivity.
      replace ("+" =? "-")%char with false by reflexivity.
      replace ("+" =? "+")%char with true by reflexivity.
      rewrite (digit_digitChar d D). now rewrite V.
    + replace (isspace "-") with false by reflexivity.
      replace ("-" =? "-")%char with true by reflexivity.
      rewrite (digit_digitChar d D). now rewrite V.
  - intros s n. unfold stoi.
    destruct (match skipWhitespace s with
              | "" => (false, skipWhitespace s)
              | String c s' =>
                  if (c =? "-")%char then (true, s')
                  else if (c =? "+")%char then (false, s')
                  else (false, skipWhitespace s)
              end) as [negative s1].
    destruct s1 as [|c s1]; [discriminate|].
    destruct (digit c); [|discriminate].
    destruct ((Int.min_int <=? _) && (_ <=? Int.max_int))%Z eqn:E;
      [|discriminate].
    intros Q. injection Q as <-. apply andb_prop in E.
    destruct E as [E1 E2]. apply Z.leb_le in E1, E2.
    unfold Int.in_range. split; assumption.
Qed.

Lemma stoi_decimal_witness :
  stoi (" " ++ signString Minus ++ digitsString [1; 2] ++ "px") =
  Done (-12)%Z.
Proof.
  refine (proj1 stoi_decimal " " Minus 1 [2] "px" eq_refl _ eq_refl).
  repeat constructor.
Defined.

(** [stoi] throws [invalid_argument] when no digit follows the white
    space and the sign: on the empty text, on a word, on a sign alone. *)
Theorem stoi_invalid (ws : string) (sg : Sign) (rest : string) :
  allChars isspace ws = true ->
  stopsDigits rest = true ->
  match rest with
  | String c _ => isspace c = false /\ c <> "-"%char /\ c <> "+"%char
  | EmptyString => True
  end ->
  stoi (ws ++ signString sg ++ rest) = Thrown StoiInvalidArgument.
Proof.
  intros W R C. unfold stoi. rewrite (skipWhitespace_app ws _ W).
  destruct rest as [|c rest].
  - destruct sg; reflexivity.
  - destruct C as (Csp & Cm & Cp). cbn [stopsDigits] in R.
    apply Ascii.eqb_neq in Cm, Cp.
    destruct sg; cbn [signString append skipWhitespace].
    + rewrite Csp, Cm, Cp. now destruct (digit c).
    + replace (isspace "+") with false by reflexivity.
      replace ("+" =? "-")%char with false by reflexivity.
      replace ("+" =? "+")%char with true by reflexivity.
      now destruct (digit c).
    + replace (isspace "-") with false by reflexivity.
      replace ("-" =? "-")%char with true by reflexivity.
      now destruct (digit c).
Qed.

Lemma stoi_invalid_witness :
  stoi "  +one" = Thrown StoiInvalidArgument.
Proof.
  refine (stoi_invalid "  " Plus "one" eq_refl eq_refl _).
  repeat split; discriminate.
Defined.

(** ** The command line *)

Lemma andThen_Done {A B : Type} (o : outcome A) (k : A -> outcome B)
      (b : B) :
  andThen o k = Done b -> exists a, o = Done a /\ k a = Done b.
Proof.
  destruct o as [a|e|c]; cbn [andThen]; intros E; try discriminate E.
  now exists a.
Qed.

(** Arguments that were read without error leave the loop in a
    configuration from which it goes on with the arguments that follow. *)
Lemma cliLoop_app (files : string -> option string) (n : nat) :
  forall pre cfg cfg' post,
  length pre <= n ->
  cliLoop files cfg pre = Done cfg' ->
  cliLoop files cfg (pre ++ post) = cliLoop files cfg' post.
Proof.
  induction n as [|n IH]; intros pre cfg cfg' post L E.
  - destruct pre; [|cbn [length] in L; lia]. cbn [cliLoop] in E.
    now injection E as <-.
  - destruct pre as [|arg rest].
    { cbn [cliLoop] in E. now injection E as <-. }
    cbn [length] in L. cbn [app cliLoop] in *.
    destruct ((arg =? "--help") || (arg =? "-h")); [discriminate E|].
    destruct (arg =? "--config").
    { destruct rest as [|path rest]; [discriminate E|]. cbn [app].
      destruct (loadFile files path) as [content|e|c]; cbn [andThen] in *;
        try discriminate E.
      destruct (parseConfig (parseYamlLike content)) as [c1|e|c];
        cbn [andThen] in *; try discriminate E.
      apply (IH rest); [cbn [length] in L; lia | exact E]. }
    destruct ((arg =? "--input") || (arg =? "-i")).
    { destruct rest as [|v rest]; [discriminate E|]. cbn [app].
      apply (IH rest); [cbn [length] in L; lia | exact E]. }
    destruct ((arg =? "--output") || (arg =? "-o")).
    { destruct rest as [|v rest]; [discriminate E|]. cbn [app].
      apply (IH rest); [cbn [length] in L; lia | exact E]. }
    destruct (arg =? "--css").
    { destruct rest as [|v rest]; [discriminate E|]. cbn [app].
      apply (IH rest); [cbn [length] in L; lia | exact E]. }
    destruct (arg =? "--project").
    { destruct rest as [|v rest]; [discriminate E|]. cbn [app].
      apply (IH rest); [cbn [length] in L; lia | exact E]. }
    destruct (arg =? "--heading-offset").
    { destruct rest as [|v rest]; [discriminate E|]. cbn [app].
      destruct (stoi v) as [z|e|c]; cbn [andThen] in *; try discriminate E.
      apply (IH rest); [cbn [length] in L; lia | exact E]. }
    destruct (arg =? "--no-index"); [|discriminate E].
    apply (IH rest); [lia | exact E].
Qed.

(** X19.  A [--config] argument starts over from the file: what the arguments in
    front of it have set is lost, also where the file does not set it, and
    only the arguments behind it are applied to what the file gives. *)
Theorem applyCliArgs_config_resets
        (files : string -> option string)
        (prog : string) (pre : list string) (cfg : Config)
        (path : string) (post : list string) :
  applyCliArgs files (prog :: pre) = Done cfg ->
  applyCliArgs files (prog :: pre ++ "--config" :: path :: post) =
  applyCliArgs files (prog :: "--config" :: path :: post).
Proof.
  unfold applyCliArgs. cbn [tl].
  destruct (parseConfig []) as [c0|e|c]; cbn [andThen]; try discriminate.
  intros E.
  rewrite (cliLoop_app files (length pre) pre c0 cfg _ (le_n _) E).
  reflexivity.
Qed.

Lemma applyCliArgs_config_resets_witness :
  applyCliArgs oneFile ["doxy2mdx"; "--input"; "in"; "--heading-offset"; "2";
                        "--config"; "c.yaml"; "--output"; "out"] =
  Done (mkConfig "docs/build/xml" "out" "docs/doxygen.css" "P" 0 true).
Proof.
  exact (eq_trans
           (applyCliArgs_config_resets
              oneFile "doxy2mdx" ["--input"; "in"; "--heading-offset"; "2"]
              (mkConfig "in" "docs/mdx" "docs/doxygen.css" "Project" 2 true)
              "c.yaml" ["--output"; "out"] eq_refl)
           eq_refl).
Defined.

(** ** The key and value file *)

Lemma allChars_upTo (p : ascii -> bool) (c : ascii) (s : string) :
  allChars p s = true -> allChars p (upTo c s) = true.
Proof.
  induction s as [|d s IH]; intros A; [reflexivity|].
  cbn [allChars] in A. apply andb_prop in A. destruct A as [D A].
  cbn [upTo]. destruct (d =? c)%char; [reflexivity|].
  cbn [allChars]. now rewrite D, IH.
Qed.

Lemma avoids_upTo (c : ascii) (s : string) : avoids c (upTo c s) = true.
Proof.
  unfold avoids. induction s as [|d s IH]; [reflexivity|].
  cbn [upTo]. destruct (d =? c)%char eqn:E; [reflexivity|].
  cbn [allChars]. now rewrite E, IH.
Qed.

Lemma allChars_after (p : ascii -> bool) (c : ascii) (s v : string) :
  after c s = Some v -> allChars p s = true -> allChars p v = true.
Proof.
  induction s as [|d s IH]; cbn [after]; [discriminate|].
  intros E A. cbn [allChars] in A. apply andb_prop in A.
  destruct A as [_ A]. destruct (d =? c)%char; [|now apply IH].
  now injection E as <-.
Qed.

Lemma allChars_skipWhitespace (p : ascii -> bool) (s : string) :
  allChars p s = true -> allChars p (skipWhitespace s) = true.
Proof.
  induction s as [|d s IH]; intros A; [reflexivity|].
  cbn [skipWhitespace]. destruct (isspace d); [|exact A].
  cbn [allChars] in A. apply andb_prop in A. now apply IH.
Qed.

Lemma allChars_rtrim (p : ascii -> bool) (s : string) :
  allChars p s = true -> allChars p (rtrim s) = true.
Proof.
  induction s as [|d s IH]; intros A; [reflexivity|].
  cbn [allChars] in A. apply andb_prop in A. destruct A as [D A].
  specialize (IH A). cbn [rtrim]. destruct (rtrim s) as [|e r].
  - destruct (isspace d); [reflexivity|]. cbn [allChars]. now rewrite D.
  - cbn [allChars] in *. now rewrite D, IH.
Qed.

Lemma allChars_trim (p : ascii -> bool) (s : string) :
  allChars p s = true -> allChars p (trim s) = true.
Proof.
  intros A. unfold trim, ltrim.
  now apply allChars_rtrim, allChars_skipWhitespace.
Qed.

Lemma rtrim_idem (s : string) : rtrim (rtrim s) = rtrim s.
Proof.
  induction s as [|c s IH]; [reflexivity|]. cbn [rtrim].
  destruct (rtrim s) as [|d r] eqn:R.
  - destruct (isspace c) eqn:C; [reflexivity|]. cbn [rtrim]. now rewrite C.
  - change (rtrim (String c (String d r)))
      with (match rtrim (String d r) with
            | "" => if isspace c then "" else String c ""
            | String e r' => String c (String e r')
            end).
    now rewrite IH.
Qed.

Lemma skipWhitespace_head (s : string) :
  match skipWhitespace s with
  | EmptyString => True
  | String c _ => isspace c = false
  end.
Proof.
  induction s as [|c s IH]; [exact I|]. cbn [skipWhitespace].
  destruct (isspace c) eqn:C; [exact IH | exact C].
Qed.

Lemma trim_idem (s : string) : trim (trim s) = trim s.
Proof.
  unfold trim, ltrim. pose proof (skipWhitespace_head s) as H.
  destruct (skipWhitespace s) as [|c x]; [reflexivity|].
  assert (E : skipWhitespace (rtrim (String c x)) = rtrim (String c x)).
  { cbn [rtrim]. destruct (rtrim x); [rewrite H|]; cbn [skipWhitespace];
      now rewrite H. }
  rewrite E. apply rtrim_idem.
Qed.

Lemma mapFind_mapSet (key value : string) (kv : KeyValues) (k : string) :
  mapFind k (mapSet key value kv) =
  if key =? k then Some value else mapFind k kv.
Proof.
  induction kv as [|[k0 v0] kv IH]; cbn [mapSet mapFind].
  - reflexivity.
  - destruct (String.eqb_spec k0 key) as [E|E].
    + subst k0. cbn [mapFind]. now destruct (key =? k).
    + cbn [mapFind]. destruct (String.eqb_spec k0 k) as [F|F]; [|exact IH].
      subst k0. apply String.eqb_neq in E. rewrite String.eqb_sym in E.
      now rewrite E.
Qed.

Lemma mapSet_keys (key value : string) (kv : KeyValues) :
  map fst (mapSet key value kv) =
  if existsb (fun k => k =? key) (map fst kv) then map fst kv
  else (map fst kv ++ [key])%list.
Proof.
  induction kv as [|[k0 v0] kv IH]; cbn [mapSet map fst existsb app];
    [reflexivity|].
  destruct (String.eqb_spec k0 key) as [E|E]; cbn [orb map fst].
  - now subst k0.
  - rewrite IH. now destruct (existsb _ _).
Qed.

Lemma mapSet_NoDup (key value : string) (kv : KeyValues) :
  NoDup (map fst kv) -> NoDup (map fst (mapSet key value kv)).
Proof.
  intros N. rewrite mapSet_keys.
  destruct (existsb (fun k => k =? key) (map fst kv)) eqn:E; [exact N|].
  apply NoDup_app; [exact N | repeat constructor; intros [] |].
  intros k I [K|[]]. subst k.
  assert (X : existsb (fun k => k =? key) (map fst kv) = true).
  { apply existsb_exists. exists key. split; [exact I|].
    apply String.eqb_refl. }
  congruence.
Qed.

Lemma mapSet_Forall (P : string * string -> Prop) (key value : string)
      (kv : KeyValues) :
  P (key, value) -> Forall P kv -> Forall P (mapSet key value kv).
Proof.
  intros K F. induction F as [|[k0 v0] kv H F IH]; cbn [mapSet].
  - now repeat constructor.
  - destruct (k0 =? key); constructor; assumption.
Qed.

Lemma getlines_avoid (content : string) :
  Forall (fun line => avoids "010" line = true) (getlines content).
Proof.
  induction content as [|c s IH]; [constructor|]. cbn [getlines].
  destruct (c =? "010")%char eqn:E; [now constructor|].
  destruct (getlines s) as [|line lines].
  - repeat constructor. unfold avoids. cbn [allChars]. now rewrite E.
  - inversion IH as [|? ? H F]; subst. constructor; [|exact F].
    unfold avoids in *. cbn [allChars]. now rewrite E, H.
Qed.

Lemma parseYamlLine_clean (kv : KeyValues) (line : string) :
  avoids "010" line = true ->
  Forall (fun e => cleanKey (fst e) /\ cleanValue (snd e)) kv ->
  Forall (fun e => cleanKey (fst e) /\ cleanValue (snd e))
         (parseYamlLine kv line).
Proof.
  intros A F. unfold parseYamlLine.
  destruct (after ":" (upTo "#" line)) as [value|] eqn:V; [|exact F].
  destruct (empty (trim (upTo ":" (upTo "#" line)))) eqn:E; [exact F|].
  cbn [negb]. apply mapSet_Forall; [|exact F]. cbn [fst snd].
  assert (H : avoids "#" (upTo "#" line) = true) by apply avoids_upTo.
  assert (L : avoids "010" (upTo "#" line) = true)
    by now apply allChars_upTo.
  unfold cleanKey, cleanValue, avoids in *. repeat split.
  - exact E.
  - apply trim_idem.
  - now apply allChars_trim, allChars_upTo.
  - now apply allChars_trim, allChars_upTo.
  - apply allChars_trim, avoids_upTo.
  - apply trim_idem.
  - apply allChars_trim. exact (allChars_after _ _ _ _ V H).
  - apply allChars_trim. exact (allChars_after _ _ _ _ V L).
Qed.

Lemma parseYamlLine_NoDup (kv : KeyValues) (line : string) :
  NoDup (map fst kv) -> NoDup (map fst (parseYamlLine kv line)).
Proof.
  intros N. unfold parseYamlLine.
  destruct (after ":" (upTo "#" line)); [|exact N].
  destruct (negb (empty (trim (upTo ":" (upTo "#" line))))); [|exact N].
  now apply mapSet_NoDup.
Qed.

(** X14.  What [parseYamlLike] stores: the keys are distinct and not empty;
    keys and values have no white space at either end, no [#] and no line
    feed in them, and a key has no colon. *)
Theorem parseYamlLike_clean (content : string) :
  NoDup (map fst (parseYamlLike content)) /\
  Forall (fun e => cleanKey (fst e) /\ cleanValue (snd e))
         (parseYamlLike content).
Proof.
  unfold parseYamlLike.
  assert (G : forall lines kv,
             Forall (fun line => avoids "010" line = true) lines ->
             NoDup (map fst kv) ->
             Forall (fun e => cleanKey (fst e) /\ cleanValue (snd e)) kv ->
             NoDup (map fst (fold_left parseYamlLine lines kv)) /\
             Forall (fun e => cleanKey (fst e) /\ cleanValue (snd e))
                    (fold_left parseYamlLine lines kv)).
  { induction lines as [|line lines IH]; intros kv A N F; [now split|].
    inversion A as [|? ? A1 A2]; subst. cbn [fold_left].
    apply IH; [exact A2 | now apply parseYamlLine_NoDup |].
    now apply parseYamlLine_clean. }
  apply G; [apply getlines_avoid | constructor | constructor].
Qed.

Lemma getlines_terminated (a : string) :
  exists extra,
    getlines (a ++ LF) = (getlines a ++ extra)%list /\
    (extra = [] \/ extra = [""]).
Proof.
  induction a as [|c a (extra & E & X)].
  - exists [""]. split; [reflexivity | now right].
  - cbn [append getlines]. destruct (c =? "010")%char.
    + exists extra. split; [now rewrite E | exact X].
    + destruct a as [|d a].
      * exists []. split; [reflexivity | now left].
      * rewrite E. destruct (getlines (String d a)) as [|l ls] eqn:G.
        -- exfalso. cbn [getlines] in G.
           destruct (d =? "010")%char; [discriminate G|].
           destruct (getlines a); discriminate G.
        -- exists extra. split; [reflexivity | exact X].
Qed.

Lemma getlines_app (a b : string) :
  getlines (a ++ LF ++ b) = (getlines (a ++ LF) ++ getlines b)%list.
Proof.
  induction a as [|c a IH]; [reflexivity|].
  cbn [append getlines]. destruct (c =? "010")%char.
  - cbn [append] in IH. now rewrite IH.
  - cbn [append] in IH. rewrite IH.
    destruct (getlines (a ++ LF)) as [|l ls] eqn:G; [|reflexivity].
    exfalso. destruct (getlines_terminated a) as (extra & E & _).
    rewrite E in G. destruct a as [|d a].
    { rewrite <- E in G. discriminate G. }
    cbn [getlines] in G. destruct (d =? "010")%char; [discriminate G|].
    destruct (getlines a); discriminate G.
Qed.

Lemma parseYamlLine_blank (kv : KeyValues) : parseYamlLine kv "" = kv.
Proof. reflexivity. Qed.

Lemma getlines_line (line : string) :
  avoids "010" line = true -> empty line = false -> getlines line = [line].
Proof.
  induction line as [|c s IH]; intros A E; [discriminate E|].
  unfold avoids in A. cbn [allChars] in A. apply andb_prop in A.
  destruct A as [C A]. apply negb_true_iff in C. cbn [getlines]. rewrite C.
  destruct s as [|d s]; [reflexivity|]. now rewrite (IH A eq_refl).
Qed.

Lemma upTo_avoids (c : ascii) (s : string) :
  avoids c s = true -> upTo c s = s.
Proof.
  unfold avoids. induction s as [|d s IH]; intros A; [reflexivity|].
  cbn [allChars] in A. apply andb_prop in A. destruct A as [D A].
  apply negb_true_iff in D. cbn [upTo]. now rewrite D, IH.
Qed.

Lemma upTo_app (c : ascii) (k v : string) :
  avoids c k = true -> upTo c (k ++ String c v) = k.
Proof.
  unfold avoids. induction k as [|d k IH]; intros A.
  - cbn [append upTo]. now rewrite Ascii.eqb_refl.
  - cbn [allChars] in A. apply andb_prop in A. destruct A as [D A].
    apply negb_true_iff in D. cbn [append upTo]. now rewrite D, IH.
Qed.

Lemma after_app (c : ascii) (k v : string) :
  avoids c k = true -> after c (k ++ String c v) = Some v.
Proof.
  unfold avoids. induction k as [|d k IH]; intros A.
  - cbn [append after]. now rewrite Ascii.eqb_refl.
  - cbn [allChars] in A. apply andb_prop in A. destruct A as [D A].
    apply negb_true_iff in D. cbn [append after]. now rewrite D, IH.
Qed.

(** X15.  Reading a file is reading its lines in turn: the text [b] put on new
    lines below the text [a] is read from what [a] gave.  So the last
    line that sets a key decides: a line [key:value] at the end gives the
    key the trimmed value, whatever stood above, and leaves every other
    key as it was. *)
Theorem parseYamlLike_last_wins (a : string) :
  (forall b,
     parseYamlLike (a ++ LF ++ b) =
     fold_left parseYamlLine (getlines b) (parseYamlLike a)) /\
  (forall key value,
     cleanKey key ->
     avoids "#" value = true -> avoids "010" value = true ->
     mapFind key (parseYamlLike (a ++ LF ++ key ++ ":" ++ value)) =
       Some (trim value) /\
     forall k, k <> key ->
       mapFind k (parseYamlLike (a ++ LF ++ key ++ ":" ++ value)) =
       mapFind k (parseYamlLike a)).
Proof.
  assert (C : forall b,
             parseYamlLike (a ++ LF ++ b) =
             fold_left parseYamlLine (getlines b) (parseYamlLike a)).
  { intros b. unfold parseYamlLike.
    rewrite getlines_app, fold_left_app.
    destruct (getlines_terminated a) as (extra & E & [X|X]); rewrite E, X.
    - now rewrite app_nil_r.
    - rewrite fold_left_app. reflexivity. }
  split; [exact C|].
  intros key value (Ke & (Kt & Kh & Kl) & Kc) Vh Vl.
  rewrite C.
  assert (L : getlines (key ++ ":" ++ value) = [key ++ ":" ++ value]).
  { apply getlines_line.
    - unfold avoids in *. rewrite allChars_app, Kl. exact Vl.
    - destruct key; [discriminate Ke | reflexivity]. }
  rewrite L. cbn [fold_left]. unfold parseYamlLine.
  assert (U : upTo "#" (key ++ ":" ++ value) = key ++ ":" ++ value).
  { apply upTo_avoids. unfold avoids in *. rewrite allChars_app, Kh.
    exact Vh. }
  rewrite U. change (key ++ ":" ++ value) with (key ++ String ":" value).
  rewrite (after_app ":" key value Kc), (upTo_app ":" key value Kc).
  rewrite Kt, Ke. cbn [negb]. split.
  - now rewrite mapFind_mapSet, String.eqb_refl.
  - intros k D. rewrite mapFind_mapSet.
    apply not_eq_sym, String.eqb_neq in D. now rewrite D.
Qed.

Lemma parseYamlLike_last_wins_witness :
  mapFind "heading_offset"
    (parseYamlLike ("heading_offset: 1  # first" ++ LF ++ "project: P" ++
                    LF ++ "heading_offset" ++ ":" ++ " 2 ")) = Some "2".
Proof.
  refine (proj1 (proj2 (parseYamlLike_last_wins
                          ("heading_offset: 1  # first" ++ LF ++ "project: P"))
                   "heading_offset" " 2 " _ eq_refl eq_refl)).
  repeat split.
Defined.

(** ** What the configuration is read from *)

Lemma stoi_in_range (s : string) (n : Z) : stoi s = Done n -> Int.in_range n.
Proof.
  unfold stoi.
  destruct (match skipWhitespace s with
            | String c s' =>
                if (c =? "-")%char then (true, s')
                else if (c =? "+")%char then (false, s')
                else (false, skipWhitespace s)
            | EmptyString => (false, skipWhitespace s)
            end) as [negative s1].
  destruct s1 as [|c s1]; [discriminate|].
  destruct (digit c); [|discriminate].
  destruct ((Int.min_int <=? _)%Z && (_ <=? Int.max_int)%Z) eqn:R;
    [|discriminate].
  intros E. injection E as <-. apply andb_prop in R. destruct R as [R1 R2].
  apply Z.leb_le in R1, R2. split; assumption.
Qed.

Lemma stoi_no_exit (s : string) (code : Z) : stoi s = Exited code -> False.
Proof.
  unfold stoi.
  destruct (match skipWhitespace s with
            | String c s' =>
                if (c =? "-")%char then (true, s')
                else if (c =? "+")%char then (false, s')
                else (false, skipWhitespace s)
            | EmptyString => (false, skipWhitespace s)
            end) as [negative s1].
  destruct s1 as [|c s1]; [discriminate|].
  destruct (digit c); [|discriminate].
  destruct ((Int.min_int <=? _)%Z && (_ <=? Int.max_int)%Z); discriminate.
Qed.

(** X16.  [parseConfig] reads six keys and no other: maps that agree on them
    give the same configuration or the same error.  A key that it does
    not know, such as a misspelt one, is passed over in silence. *)
Theorem parseConfig_keys (kv kv' : KeyValues) :
  (forall k, In k configKeys -> mapFind k kv = mapFind k kv') ->
  parseConfig kv = parseConfig kv'.
Proof.
  intros H. unfold parseConfig, setIfFound.
  rewrite <- (H "input"), <- (H "output"), <- (H "css"), <- (H "project"),
    <- (H "heading_offset"), <- (H "emit_index");
    [reflexivity | unfold configKeys; cbn [In]; tauto ..].
Qed.

Lemma parseConfig_keys_witness :
  parseConfig [("input_xml_dir", "xml"); ("project", "P")] =
  parseConfig [("project", "P")].
Proof.
  apply parseConfig_keys. intros k I. unfold configKeys in I. cbn [In] in I.
  repeat (destruct I as [<-|I]; [reflexivity|]). contradiction.
Defined.

(** X17.  [parseConfig] fails only on the heading offset, with the error of
    [std::stoi] on its value; it never ends the process.  Where it
    returns, the offset is an [int], taken from the file or the default
    0, and the index is switched off by the value [false] alone: any
    other value, [no] or [False] or the empty one, leaves it on. *)
Theorem parseConfig_outcome (kv : KeyValues) :
  (forall e,
     parseConfig kv = Thrown e <->
     exists v, mapFind "heading_offset" kv = Some v /\ stoi v = Thrown e) /\
  (forall code, parseConfig kv = Exited code -> False) /\
  (forall cfg,
     parseConfig kv = Done cfg ->
     Int.in_range (headingOffset cfg) /\
     (mapFind "heading_offset" kv = None -> headingOffset cfg = 0%Z) /\
     (emitIndex cfg = false <-> mapFind "emit_index" kv = Some "false")).
Proof.
  unfold parseConfig, setIfFound.
  set (c4 := match mapFind "project" kv with
             | Some v => withProject v _
             | None => _
             end).
  assert (O : headingOffset c4 = 0%Z).
  { unfold c4.
    destruct (mapFind "project" kv), (mapFind "css" kv),
      (mapFind "output" kv), (mapFind "input" kv); reflexivity. }
  assert (I : emitIndex c4 = true).
  { unfold c4.
    destruct (mapFind "project" kv), (mapFind "css" kv),
      (mapFind "output" kv), (mapFind "input" kv); reflexivity. }
  assert (X : forall c : Config,
             (emitIndex
                match mapFind "emit_index" kv with
                | Some v => withIndex (negb (v =? "false")) c
                | None => c
                end = false <->
              mapFind "emit_index" kv = Some "false") \/
             emitIndex c = false).
  { intros c. destruct (mapFind "emit_index" kv) as [v|].
    - left. cbn [withIndex emitIndex]. destruct (v =? "false") eqn:V.
      + apply String.eqb_eq in V. subst v. now split.
      + cbn [negb]. split; [discriminate|]. intros E. injection E as ->.
        discriminate V.
    - destruct (emitIndex c) eqn:E; [left | now right].
      split; discriminate. }
  destruct (mapFind "heading_offset" kv) as [v|].
  - destruct (stoi v) as [n|e0|code0] eqn:S0; cbn [andThen].
    + split; [|split].
      * intros e. split; [discriminate|]. intros (v' & V & T).
        injection V as <-. rewrite S0 in T. discriminate T.
      * discriminate.
      * intros cfg E. injection E as <-.
        split; [|split].
        -- destruct (mapFind "emit_index" kv); cbn [withIndex headingOffset];
             apply (stoi_in_range v n S0).
        -- discriminate.
        -- destruct (X (withOffset n c4)) as [Y|Y]; [exact Y|].
           cbn [withOffset emitIndex] in Y. rewrite I in Y. discriminate Y.
    + split; [|split].
      * intros e. split.
        -- intros E. injection E as <-. now exists v.
        -- intros (v' & V & T). injection V as <-. rewrite S0 in T.
           now injection T as <-.
      * discriminate.
      * discriminate.
    + destruct (stoi_no_exit v code0 S0).
  - cbn [andThen]. split; [|split].
    + intros e. split; [discriminate|]. intros (v' & V & _). discriminate V.
    + discriminate.
    + intros cfg E. injection E as <-. split; [|split].
      * destruct (mapFind "emit_index" kv); cbn [withIndex headingOffset];
          rewrite O; unfold Int.in_range, Int.min_int, Int.max_int; lia.
      * intros _. destruct (mapFind "emit_index" kv);
          cbn [withIndex headingOffset]; exact O.
      * destruct (X c4) as [Y|Y]; [exact Y|]. rewrite I in Y. discriminate Y.
Qed.

Lemma parseConfig_outcome_witness :
  parseConfig (parseYamlLike ("heading_offset: two" ++ LF ++ "emit_index: no"))
  = Thrown StoiInvalidArgument.
Proof.
  apply (proj1 (parseConfig_outcome _)).
  exists "two". split; reflexivity.
Defined.

Lemma cliLoop_files (files files' : string -> option string) (n : nat) :
  forall args cfg,
  length args <= n ->
  (forall path, In path args -> files path = files' path) ->
  cliLoop files cfg args = cliLoop files' cfg args.
Proof.
  induction n as [|n IH]; intros args cfg L H.
  - destruct args; [reflexivity | cbn [length] in L; lia].
  - destruct args as [|arg rest]; [reflexivity|].
    cbn [length] in L. cbn [cliLoop].
    assert (R : forall cfg', cliLoop files cfg' rest = cliLoop files' cfg' rest).
    { intros cfg'. apply IH; [lia|]. intros p P. apply H. now right. }
    assert (R2 : forall v rest' cfg', rest = v :: rest' ->
                 cliLoop files cfg' rest' = cliLoop files' cfg' rest').
    { intros v rest' cfg' ->. apply IH; [cbn [length] in L; lia|].
      intros p P. apply H. right. now right. }
    destruct ((arg =? "--help") || (arg =? "-h")); [reflexivity|].
    destruct (arg =? "--config").
    { destruct rest as [|path rest']; [reflexivity|].
      unfold loadFile. rewrite (H path) by (right; now left).
      destruct (files' path) as [content|]; cbn [andThen]; [|reflexivity].
      destruct (parseConfig (parseYamlLike content)); cbn [andThen];
        [|reflexivity|reflexivity].
      now apply (R2 path). }
    destruct ((arg =? "--input") || (arg =? "-i")).
    { destruct rest as [|v rest']; [reflexivity|]. now apply (R2 v). }
    destruct ((arg =? "--output") || (arg =? "-o")).
    { destruct rest as [|v rest']; [reflexivity|]. now apply (R2 v). }
    destruct (arg =? "--css").
    { destruct rest as [|v rest']; [reflexivity|]. now apply (R2 v). }
    destruct (arg =? "--project").
    { destruct rest as [|v rest']; [reflexivity|]. now apply (R2 v). }
    destruct (arg =? "--heading-offset").
    { destruct rest as [|v rest']; [reflexivity|].
      destruct (stoi v); cbn [andThen]; [|reflexivity|reflexivity].
      now apply (R2 v). }
    destruct (arg =? "--no-index"); [apply R | reflexivity].
Qed.

(** X20.  The command line reads no file but those it names: the outcome is
    the same with any other files that hold the same under the names
    among the arguments.  In particular, without [--config] no file is
    read. *)
Theorem applyCliArgs_files
        (files files' : string -> option string) (argv : list string) :
  (forall path, In path argv -> files path = files' path) ->
  applyCliArgs files argv = applyCliArgs files' argv.
Proof.
  intros H. unfold applyCliArgs.
  destruct (parseConfig []); cbn [andThen]; [|reflexivity|reflexivity].
  apply (cliLoop_files files files' (length (tl argv)) _ _ (le_n _)).
  intros p P. apply H. destruct argv; [destruct P | now right].
Qed.

Lemma applyCliArgs_files_witness :
  applyCliArgs oneFile ["doxy2mdx"; "--project"; "Q"; "--no-index"] =
  applyCliArgs (fun _ => None) ["doxy2mdx"; "--project"; "Q"; "--no-index"].
Proof.
  apply applyCliArgs_files. intros p P. cbn [In] in P.
  repeat (destruct P as [<-|P]; [reflexivity|]). contradiction.
Defined.

(** ** What stands in front of the root *)

Lemma parseWith_declaration (fuel : nat) (ws decl doc : string) :
  allChars isspace ws = true ->
  closedBy "?>" ("<?" ++ decl) = true ->
  startsWith "<?" (skipWhitespace doc) = false ->
  parseWith fuel (ws ++ "<?" ++ decl ++ "?>" ++ doc) = parseWith fuel doc.
Proof.
  intros W C D. unfold parseWith.
  rewrite (skipWhitespace_app ws _ W).
  replace (skipWhitespace ("<?" ++ decl ++ "?>" ++ doc))
    with (("<?" ++ decl) ++ "?>" ++ doc) by reflexivity.
  replace (startsWith "<?" (("<?" ++ decl) ++ "?>" ++ doc)) with true
    by reflexivity.
  rewrite (parseUntil_app "?>" ("<?" ++ decl) doc C).
  cbn [bind]. replace (drop 2 ("?>" ++ doc)) with doc by reflexivity.
  rewrite D. reflexivity.
Qed.

Lemma closedBy_avoids (c : ascii) (d : string) :
  avoids c d = true -> closedBy (String c "") d = true.
Proof.
  unfold avoids. induction d as [|x d IH]; intros A; [reflexivity|].
  cbn [allChars] in A. apply andb_prop in A. destruct A as [X A].
  cbn [closedBy]. rewrite (IH A), andb_true_r.
  cbn [append startsWith]. rewrite andb_true_r.
  apply negb_true_iff in X. rewrite Ascii.eqb_sym, X. reflexivity.
Qed.

Lemma parseWith_doctype (fuel : nat) (ws d doc : string) :
  allChars isspace ws = true ->
  avoids ">" d = true ->
  startsWith "<?" (skipWhitespace doc) = false ->
  startsWith "<!DOCTYPE" (skipWhitespace doc) = false ->
  parseWith fuel (ws ++ "<!DOCTYPE" ++ d ++ ">" ++ doc) = parseWith fuel doc.
Proof.
  intros W A D T. unfold parseWith.
  rewrite (skipWhitespace_app ws _ W).
  replace (skipWhitespace ("<!DOCTYPE" ++ d ++ ">" ++ doc))
    with ("<!DOCTYPE" ++ d ++ ">" ++ doc) by reflexivity.
  replace (startsWith "<?" ("<!DOCTYPE" ++ d ++ ">" ++ doc)) with false
    by reflexivity.
  cbn [bind].
  replace (startsWith "<!DOCTYPE" ("<!DOCTYPE" ++ d ++ ">" ++ doc)) with true
    by reflexivity.
  replace ("<!DOCTYPE" ++ d ++ ">" ++ doc)
    with (("<!DOCTYPE" ++ d) ++ ">" ++ doc) by reflexivity.
  rewrite (parseUntil_app ">" ("<!DOCTYPE" ++ d) doc).
  - cbn [bind]. replace (snd (get (">" ++ doc))) with doc by reflexivity.
    rewrite D. cbn [bind]. rewrite T. reflexivity.
  - apply closedBy_avoids. unfold avoids in *.
    rewrite allChars_app, A. reflexivity.
Qed.

(** X10.  An XML declaration in front of the document is skipped, and so is a
    document type that holds no [>]: the document behind them is parsed
    as if it stood alone.  Each is skipped once, the declaration first. *)
Theorem parse_prolog (ws doc : string) :
  allChars isspace ws = true ->
  startsWith "<?" (skipWhitespace doc) = false ->
  (forall decl,
     closedBy "?>" ("<?" ++ decl) = true ->
     parse (ws ++ "<?" ++ decl ++ "?>" ++ doc) = parse doc) /\
  (forall d,
     avoids ">" d = true ->
     startsWith "<!DOCTYPE" (skipWhitespace doc) = false ->
     parse (ws ++ "<!DOCTYPE" ++ d ++ ">" ++ doc) = parse doc).
Proof.
  intros W D. split.
  - intros decl C. unfold parse at 1.
    rewrite (parseWith_declaration _ ws decl doc W C D).
    apply parseWith_more_fuel. rewrite !length_append. lia.
  - intros d A T. unfold parse at 1.
    rewrite (parseWith_doctype _ ws d doc W A D T).
    apply parseWith_more_fuel. rewrite !length_append. lia.
Qed.

Lemma parse_prolog_witness :
  parse (" " ++ "<?" ++ "xml version='1.0'" ++ "?>" ++
         LF ++ "<!DOCTYPE" ++ " doxygen" ++ ">" ++ LF ++ "<a>x</a>") =
  parse "<a>x</a>".
Proof.
  refine (eq_trans
            (proj1 (parse_prolog " "
                      (LF ++ "<!DOCTYPE" ++ " doxygen" ++ ">" ++ LF ++
                       "<a>x</a>") eq_refl eq_refl)
               "xml version='1.0'" eq_refl) _).
  refine (eq_trans
            (proj2 (parse_prolog LF (LF ++ "<a>x</a>") eq_refl eq_refl)
               " doxygen" eq_refl eq_refl) _).
  reflexivity.
Defined.

(** ** Looking up children and attributes *)

(** X12.  [child] gives the first of the children that [childrenNamed] gives,
    and none exactly when there is none; what [childrenNamed] gives are
    children of that name. *)
Theorem child_first_childrenNamed (key : string) (node : XmlNode) :
  child key node = hd_error (childrenNamed key node) /\
  Forall (fun c => In c (children node) /\ name c = key)
         (childrenNamed key node).
Proof.
  unfold child, childrenNamed. split.
  - induction (children node) as [|c cs IH]; [reflexivity|].
    cbn [find filter]. destruct (name c =? key); [reflexivity | exact IH].
  - apply Forall_forall. intros c I. apply filter_In in I.
    destruct I as [I E]. split; [exact I | now apply String.eqb_eq].
Qed.

(** ** Descriptions *)

Lemma empty_append (a b : string) : empty (a ++ b) = empty a && empty b.
Proof. destruct a; reflexivity. Qed.

(** X13.  A description renders to nothing exactly when each of its children
    is a text node without text: a paragraph, even an empty one, and any
    other element leave at least a blank line. *)
Theorem renderDescription_empty (desc : XmlNode) :
  empty (renderDescription desc) =
  forallb (fun c => isText c && empty (text c)) (children desc).
Proof.
  unfold renderDescription.
  induction (children desc) as [|c cs IH]; [reflexivity|].
  cbn [map concat_all forallb]. rewrite empty_append, IH. f_equal.
  unfold renderDescriptionChild, isText.
  destruct (name c =? "para") eqn:P.
  - apply String.eqb_eq in P. rewrite P. cbn [String.eqb Ascii.eqb].
    rewrite !empty_append. cbn [andb]. now rewrite andb_false_r.
  - destruct (name c =? "#text").
    + destruct (empty (text c)) eqn:E; cbn [negb andb]; [reflexivity|].
      now rewrite empty_append, E.
    + rewrite !empty_append. cbn [andb]. now rewrite andb_false_r.
Qed.

(** ** The heading offset *)

Lemma parseConfig_stoi (kv : KeyValues) (v : string) :
  mapFind "heading_offset" kv = Some v ->
  match stoi v with
  | Done n => exists cfg, parseConfig kv = Done cfg /\ headingOffset cfg = n
  | Thrown e => parseConfig kv = Thrown e
  | Exited code => parseConfig kv = Exited code
  end.
Proof.
  intros H. unfold parseConfig. rewrite H.
  destruct (stoi v) as [n|e|code]; cbn [andThen]; [|reflexivity|reflexivity].
  eexists. split; [reflexivity|]. unfold setIfFound.
  destruct (mapFind "emit_index" kv); reflexivity.
Qed.

(** X18.  The heading offset, in the file and on the command line, is read as a
    decimal number: white space, an optional sign and a row of digits,
    what follows the digits being ignored.  A number that is no [int] is
    the error [out_of_range] and a value without a digit in that place is
    the error [invalid_argument]; neither leaves the default in place. *)
Theorem heading_offset_decimal
        (ws : string) (sg : Sign) (rest : string) (v : string) :
  allChars isspace ws = true ->
  stopsDigits rest = true ->
  (forall d ds,
     v = ws ++ signString sg ++ digitsString (d :: ds) ++ rest ->
     Forall (fun d => d < 10) (d :: ds) ->
     let n := signed sg (digitsValue 0 (d :: ds)) in
     if ((Int.min_int <=? n) && (n <=? Int.max_int))%Z
     then
       (forall kv, mapFind "heading_offset" kv = Some v ->
          exists cfg, parseConfig kv = Done cfg /\ headingOffset cfg = n) /\
       (forall files cfg args,
          cliLoop files cfg ("--heading-offset" :: v :: args) =
          cliLoop files (withOffset n cfg) args)
     else
       (forall kv, mapFind "heading_offset" kv = Some v ->
          parseConfig kv = Thrown StoiOutOfRange) /\
       (forall files cfg args,
          cliLoop files cfg ("--heading-offset" :: v :: args) =
          Thrown StoiOutOfRange)) /\
  (v = ws ++ signString sg ++ rest ->
   match rest with
   | String c _ => isspace c = false /\ c <> "-"%char /\ c <> "+"%char
   | EmptyString => True
   end ->
   (forall kv, mapFind "heading_offset" kv = Some v ->
      parseConfig kv = Thrown StoiInvalidArgument) /\
   (forall files cfg args,
      cliLoop files cfg ("--heading-offset" :: v :: args) =
      Thrown StoiInvalidArgument)).
Proof.
  intros W R. split.
  - intros d ds -> F n.
    pose proof (proj1 stoi_decimal ws sg d ds rest W F R) as S0.
    fold n in S0.
    destruct ((Int.min_int <=? n) && (n <=? Int.max_int))%Z.
    + split.
      * intros kv H. pose proof (parseConfig_stoi kv _ H) as P.
        now rewrite S0 in P.
      * intros files cfg args. cbn [cliLoop String.eqb Ascii.eqb orb].
        cbn [Bool.eqb andb]. now rewrite S0.
    + split.
      * intros kv H. pose proof (parseConfig_stoi kv _ H) as P.
        now rewrite S0 in P.
      * intros files cfg args. cbn [cliLoop String.eqb Ascii.eqb orb].
        cbn [Bool.eqb andb]. now rewrite S0.
  - intros -> C. pose proof (stoi_invalid ws sg rest W R C) as S0. split.
    + intros kv H. pose proof (parseConfig_stoi kv _ H) as P.
      now rewrite S0 in P.
    + intros files cfg args. cbn [cliLoop String.eqb Ascii.eqb orb].
      cbn [Bool.eqb andb]. now rewrite S0.
Qed.

Lemma heading_offset_decimal_witness :
  (exists cfg,
     parseConfig (parseYamlLike "heading_offset: -12px") = Done cfg /\
     headingOffset cfg = (-12)%Z) /\
  cliLoop oneFile defaultConfig ["--heading-offset"; "-12px"] =
  Done (withOffset (-12) defaultConfig) /\
  parseConfig (parseYamlLike "heading_offset: two") =
  Thrown StoiInvalidArgument.
Proof.
  assert (F : Forall (fun d => d < 10) [1; 2]) by (repeat constructor).
  assert (C : isspace "t" = false /\ "t"%char <> "-"%char /\
              "t"%char <> "+"%char) by (repeat split; discriminate).
  pose proof (proj1 (heading_offset_decimal "" Minus "px" "-12px"
                       eq_refl eq_refl)
                1 [2] eq_refl F) as H.
  pose proof (proj2 (heading_offset_decimal "" NoSign "two" "two"
                       eq_refl eq_refl)
                eq_refl C) as [I _].
  cbv zeta in H.
  change (if true then _ else _) with
    ((forall kv, mapFind "heading_offset" kv = Some "-12px" ->
        exists cfg, parseConfig kv = Done cfg /\ headingOffset cfg = (-12)%Z) /\
     (forall files cfg args,
        cliLoop files cfg ("--heading-offset" :: "-12px" :: args) =
        cliLoop files (withOffset (-12) cfg) args)) in H.
  destruct H as [H1 H2]. split; [|split].
  - apply H1. reflexivity.
  - exact (H2 oneFile defaultConfig []).
  - apply I. reflexivity.
Defined.
